(** * agent-actor-inspector: the helper functions of [src/utils.py] and the
      tools of [src/tools_2.py], embedded as Rocq functions.

    Python values are modelled by [pyval]; a [dict] is an association list
    in insertion order (a Python dict keeps insertion order and its keys
    are unique); a raised exception is the [Raise] branch of [result]. *)

From Stdlib Require Import List String Ascii ZArith Bool Arith Lia Permutation
  Sorted Relations_1 Finite.
Import ListNotations.

Set Warnings "-register-all".

Local Open Scope string_scope.
Local Open Scope list_scope.

(** ** Exceptions and results *)

(** The exceptions the two modules can raise.  [ValueError] carries the
    message the code formats; the others are raised by the interpreter,
    by pydantic or by the remote client. *)
Inductive exn : Type :=
| ValueError (msg : string)
| KeyError (key : string)
| TypeError
| AttributeError
| ValidationError (fields : list string)
| RemoteError (msg : string).

Inductive result (A : Type) : Type :=
| Ok (a : A)
| Raise (e : exn).

Arguments Ok {A} a.
Arguments Raise {A} e.

Definition bind {A B : Type} (r : result A) (k : A -> result B) : result B :=
  match r with
  | Ok a => k a
  | Raise e => Raise e
  end.

Notation "x <- r ;; k" := (bind r (fun x => k))
  (at level 61, r at next level, right associativity).

Definition is_ok {A : Type} (r : result A) : bool :=
  match r with Ok _ => true | Raise _ => false end.

(** ** Python values *)

(** The values that flow through the code: JSON as the client decodes it,
    with timestamps already turned into timezone-aware datetimes
    ([PDatetime], microseconds since the epoch). *)
Inductive pyval : Type :=
| PNone
| PBool (b : bool)
| PInt (z : Z)
| PStr (s : string)
| PList (l : list pyval)
| PDict (d : list (string * pyval))
| PDatetime (t : Z).

Definition dict : Type := list (string * pyval).

(** [d.get(key)] without a default is [dict_get] with [None] read as Python's
    [None]; [key in d] is [dict_get d key <> None]. *)
Fixpoint dict_get {V : Type} (d : list (string * V)) (key : string) : option V :=
  match d with
  | [] => None
  | (k, v) :: rest => if String.eqb k key then Some v else dict_get rest key
  end.

(** [d[key] = v]: an existing key keeps its position, a new key goes last. *)
Fixpoint dict_set {V : Type} (d : list (string * V)) (key : string) (v : V)
  : list (string * V) :=
  match d with
  | [] => [(key, v)]
  | (k, w) :: rest =>
      if String.eqb k key then (k, v) :: rest else (k, w) :: dict_set rest key v
  end.

Definition keys {V : Type} (d : list (string * V)) : list string := map fst d.

(** [d.get(key)] *)
Definition py_get (d : dict) (key : string) : pyval :=
  match dict_get d key with Some v => v | None => PNone end.

(** [d.get(key, default)] *)
Definition py_get_default (d : dict) (key : string) (default : pyval) : pyval :=
  match dict_get d key with Some v => v | None => default end.

(** Truth value of a Python object, as [not x] and [if x] use it. *)
Definition truthy (v : pyval) : bool :=
  match v with
  | PNone => false
  | PBool b => b
  | PInt z => negb (Z.eqb z 0)
  | PStr s => negb (String.eqb s "")
  | PList l => match l with [] => false | _ => true end
  | PDict d => match d with [] => false | _ => true end
  | PDatetime _ => true
  end.

(** [v == s] for a string literal [s]. *)
Definition py_eq_str (v : pyval) (s : string) : bool :=
  match v with
  | PStr s' => String.eqb s' s
  | _ => false
  end.

(** ** Strings *)

(** [s.split('/')]: the segments between the slashes; never empty. *)
Fixpoint split_slash (s : string) : list string :=
  match s with
  | EmptyString => [""]
  | String c s' =>
      if Ascii.eqb c "/" then "" :: split_slash s'
      else match split_slash s' with
           | [] => [String c ""]
           | seg :: segs => String c seg :: segs
           end
  end.

(** ['/'.join(parts)], the inverse of [split_slash]. *)
Fixpoint join_slash (parts : list string) : string :=
  match parts with
  | [] => ""
  | [p] => p
  | p :: rest => (p ++ String "/" (join_slash rest))%string
  end.

Definition lower_ascii (c : ascii) : ascii :=
  let n := nat_of_ascii c in
  if (65 <=? n)%nat && (n <=? 90)%nat then ascii_of_nat (n + 32) else c.

(** [s.lower()] on the ASCII letters; no other character lowers to a letter
    of ['text'], so the comparison with ['text'] is decided alike. *)
Fixpoint lower (s : string) : string :=
  match s with
  | EmptyString => EmptyString
  | String c s' => String (lower_ascii c) (lower s')
  end.

(** [needle in haystack] for strings. *)
Definition mentions (haystack needle : string) : Prop :=
  exists pre post, haystack = (pre ++ needle ++ post)%string.

(** ** The file tree of [generate_file_tree] *)

(** A value of the tree: [None] for a file, a nested dict for a directory. *)
Inductive FileTreeNode : Type :=
| Leaf
| Dir (entries : list (string * FileTreeNode)).

Definition FileTree : Type := list (string * FileTreeNode).

(** The inner loop [for i, part in enumerate(path_parts)] on the dict
    [current]: the last part is set to [None]; any other part is created
    as [{}] when absent and entered.  Entering a part that holds [None]
    makes the next iteration fail on [None] ([part not in current] or
    [current[part] = None]), a [TypeError].  The recursion returns the
    updated dict where the loop updates it in place; [insert_path_loop]
    below is the loop on the store, and the two are proved equal. *)
Fixpoint insert_path (current : FileTree) (path_parts : list string)
  : result FileTree :=
  match path_parts with
  | [] => Ok current
  | [part] => Ok (dict_set current part Leaf)
  | part :: rest =>
      match dict_get current part with
      | None =>
          sub <- insert_path [] rest ;; Ok (dict_set current part (Dir sub))
      | Some (Dir d) =>
          sub <- insert_path d rest ;; Ok (dict_set current part (Dir sub))
      | Some Leaf => Raise TypeError
      end
  end.

(** The same loop read statement by statement on the store.  The only
    object the loop can reach is the root dict [tree]; the variable
    [current] aliases the dict found by following the keys [cursor] from
    the root, so an assignment through [current] is an update of [tree] at
    [cursor] ([update_at]). *)
Fixpoint update_at (tree : FileTree) (cursor : list string)
  (f : FileTree -> FileTree) : FileTree :=
  match cursor with
  | [] => f tree
  | k :: rest =>
      match dict_get tree k with
      | Some (Dir d) => dict_set tree k (Dir (update_at d rest f))
      | _ => tree
      end
  end.

(** What [current] refers to: the value at [cursor] below the root. *)
Fixpoint deref (tree : FileTree) (cursor : list string) : option FileTreeNode :=
  match cursor with
  | [] => Some (Dir tree)
  | k :: rest =>
      match dict_get tree k with
      | Some (Dir d) => deref d rest
      | Some Leaf => match rest with [] => Some Leaf | _ => None end
      | None => None
      end
  end.

Fixpoint insert_path_loop (tree : FileTree) (cursor : list string)
  (path_parts : list string) : result FileTree :=
  match path_parts with
  | [] => Ok tree
  | part :: rest =>
      match deref tree cursor with
      | Some (Dir current) =>
          match rest with
          | [] =>
              (* i == len(path_parts) - 1: current[part] = None *)
              Ok (update_at tree cursor (fun c => dict_set c part Leaf))
          | _ =>
              (* if part not in current: current[part] = {} *)
              let tree' :=
                match dict_get current part with
                | None =>
                    update_at tree cursor (fun c => dict_set c part (Dir []))
                | Some _ => tree
                end in
              (* current = current[part] *)
              insert_path_loop tree' (cursor ++ [part]) rest
          end
      | _ => Raise TypeError
      end
  end.

(** [file_info['name'].split('/')] *)
Definition path_parts_of (file_info : dict) : result (list string) :=
  match dict_get file_info "name" with
  | None => Raise (KeyError "name")
  | Some (PStr s) => Ok (split_slash s)
  | Some _ => Raise AttributeError
  end.

(** One iteration of [for file_info in files]. *)
Definition add_file (tree : FileTree) (file_info : dict) : result FileTree :=
  path_parts <- path_parts_of file_info ;;
  insert_path tree path_parts.

Fixpoint add_files (tree : FileTree) (files : list dict) : result FileTree :=
  match files with
  | [] => Ok tree
  | file_info :: rest =>
      tree' <- add_file tree file_info ;; add_files tree' rest
  end.

Definition generate_file_tree (files : list dict) : result FileTree :=
  add_files [] files.

(** *** Measures of a tree, used to state the properties *)

(** Number of [None] entries below a node. *)
Fixpoint leaf_count (n : FileTreeNode) : nat :=
  match n with
  | Leaf => 1
  | Dir entries => list_sum (map (fun kv => leaf_count (snd kv)) entries)
  end.

(** Number of nested mapping levels below a node. *)
Fixpoint depth (n : FileTreeNode) : nat :=
  match n with
  | Leaf => 0
  | Dir entries => list_max (map (fun kv => S (depth (snd kv))) entries)
  end.

(** The key sequences that lead from a node to a [None] entry. *)
Fixpoint node_paths (n : FileTreeNode) : list (list string) :=
  match n with
  | Leaf => [[]]
  | Dir entries =>
      flat_map (fun kv => map (cons (fst kv)) (node_paths (snd kv))) entries
  end.

(** [tree[k1][k2]...[kn]], when every key on the way is present. *)
Fixpoint walk (n : FileTreeNode) (ks : list string) : option FileTreeNode :=
  match ks with
  | [] => Some n
  | k :: rest =>
      match n with
      | Leaf => None
      | Dir entries =>
          match dict_get entries k with
          | Some child => walk child rest
          | None => None
          end
      end
  end.

(** Following [ks] from the dict [t] meets a [None] entry on the way (at a
    non-empty prefix of [ks]). *)
Fixpoint hits_leaf (t : FileTree) (ks : list string) : bool :=
  match ks with
  | [] => false
  | k :: rest =>
      match dict_get t k with
      | Some Leaf => true
      | Some (Dir d) => hits_leaf d rest
      | None => false
      end
  end.

(** [p] is [q] followed by at least one more segment. *)
Definition extends (p q : list string) : Prop :=
  exists ext, ext <> [] /\ p = q ++ ext.

(** No path of the list continues another one below its last segment. *)
Definition prefix_free (paths : list (list string)) : Prop :=
  forall p q, In p paths -> In q paths -> ~ extends p q.

(** The segment lists of records that all carry a string ['name']. *)
Definition names_of (names : list string) : list dict :=
  map (fun s => [("name", PStr s)]) names.

Definition distinct_count (names : list string) : nat :=
  List.length (nodup string_dec names).

(** *** Shape of the trees the builder makes *)

(** Keys are unique at every level and no directory below the top is
    empty. *)
Inductive wf_node : FileTreeNode -> Prop :=
| wf_leaf : wf_node Leaf
| wf_dir (entries : list (string * FileTreeNode)) :
    entries <> [] ->
    NoDup (keys entries) ->
    Forall (fun kv => wf_node (snd kv)) entries ->
    wf_node (Dir entries).

Definition wf_tree (t : FileTree) : Prop :=
  NoDup (keys t) /\ Forall (fun kv => wf_node (snd kv)) t.

(** Induction on a node with the property known for every child. *)
Fixpoint FileTreeNode_nested_ind (P : FileTreeNode -> Prop)
  (HLeaf : P Leaf)
  (HDir : forall entries, Forall (fun kv => P (snd kv)) entries -> P (Dir entries))
  (n : FileTreeNode) : P n :=
  match n with
  | Leaf => HLeaf
  | Dir entries =>
      HDir entries
        ((fix children (l : list (string * FileTreeNode))
            : Forall (fun kv => P (snd kv)) l :=
            match l with
            | [] => Forall_nil _
            | (k, child) :: l' =>
                Forall_cons (k, child)
                  (FileTreeNode_nested_ind P HLeaf HDir child) (children l')
            end) entries)
  end.

(** [p] begins with the segments [pre]. *)
Fixpoint starts_with (pre p : list string) : bool :=
  match pre, p with
  | [], _ => true
  | k :: pre', k' :: p' => String.eqb k k' && starts_with pre' p'
  | _ :: _, [] => false
  end.

(** [p] is [q] followed by at least one more segment, as a test. *)
Definition extendsb (p q : list string) : bool :=
  starts_with q p && (List.length q <? List.length p)%nat.

Definition prefix_freeb (paths : list (list string)) : bool :=
  forallb (fun p => forallb (fun q => negb (extendsb p q)) paths) paths.

(** ** The remote client *)

(** The calls of [ApifyClient] the code makes, each a function of its
    arguments that returns the decoded response or raises. *)
Record ApifyClient : Type := {
  (** [client.actor(x).get()] *)
  actor_get : pyval -> result (option dict);
  (** [client.actor(x).versions().list().items] *)
  versions_list : pyval -> result (list dict);
  (** [client.store().list(limit=, offset=, search=).items] *)
  store_list : Z -> Z -> string -> result (list dict)
}.

Definition of_optional (o : option dict) : pyval :=
  match o with
  | None => PNone
  | Some d => PDict d
  end.

Definition get_actor_id (apify_client : ApifyClient) (actor_name : string)
  : result pyval :=
  actor <- actor_get apify_client (PStr actor_name) ;;
  if negb (truthy (of_optional actor)) then
    Raise (ValueError ("Actor " ++ actor_name ++ " not found.")%string)
  else
    let actor_id :=
      match actor with Some a => py_get a "id" | None => PNone end in
    if negb (truthy actor_id) then
      Raise (ValueError
               ("Failed to get the Actor object ID for "
                  ++ actor_name ++ ".")%string)
    else Ok actor_id.

(** [iter(v)]: what a [for] loop or [filter] goes through. *)
Definition py_iter (v : pyval) : result (list pyval) :=
  match v with
  | PList l => Ok l
  | PDict d => Ok (map PStr (keys d))
  | PStr s => Ok (map (fun c => PStr (String c "")) (list_ascii_of_string s))
  | _ => Raise TypeError
  end.

(** [list(filter(f, xs))] for a predicate that may raise. *)
Fixpoint filter_raising {A : Type} (f : A -> result bool) (xs : list A)
  : result (list A) :=
  match xs with
  | [] => Ok []
  | x :: rest =>
      keep <- f x ;;
      kept <- filter_raising f rest ;;
      Ok (if keep then x :: kept else kept)
  end.

(** [lambda x: x.get('format', '').lower() == 'text'] *)
Definition is_text_file (x : pyval) : result bool :=
  match x with
  | PDict d =>
      match py_get_default d "format" (PStr "") with
      | PStr s => Ok (String.eqb (lower s) "text")
      | _ => Raise AttributeError
      end
  | _ => Raise AttributeError
  end.

(** [lambda x: x.get('buildTag') == 'latest'] *)
Definition is_latest (x : dict) : bool :=
  py_eq_str (py_get x "buildTag") "latest".

Definition get_actor_source_files (apify_client : ApifyClient)
  (actor_name : string) : result (list pyval) :=
  actor_id <- get_actor_id apify_client actor_name ;;
  versions <- versions_list apify_client actor_id ;;
  let version := of_optional (find is_latest versions) in
  if negb (truthy version) then Ok []
  else
    let source_files :=
      match version with PDict d => py_get d "sourceFiles" | _ => PNone end in
    items <- py_iter source_files ;;
    filter_raising is_text_file items.

(** An entry whose ['format'] is a string that lowers to ['text']. *)
Definition has_text_format (x : pyval) : bool :=
  match x with
  | PDict d =>
      match dict_get d "format" with
      | Some (PStr s) => String.eqb (lower s) "text"
      | _ => false
      end
  | _ => false
  end.

(** A source-file entry as the remote API sends it: an object whose
    ['format'], when present, is a string. *)
Definition file_entry (x : pyval) : Prop :=
  exists d, x = PDict d /\
    (dict_get d "format" = None \/ exists s, dict_get d "format" = Some (PStr s)).

(** [os.getenv('APIFY_TOKEN')] checked for presence. *)
Definition get_apify_token (getenv : string -> option string) : result string :=
  match getenv "APIFY_TOKEN" with
  | Some token =>
      if negb (truthy (PStr token)) then
        Raise (ValueError "APIFY_TOKEN environment variable is not set")
      else Ok token
  | None => Raise (ValueError "APIFY_TOKEN environment variable is not set")
  end.

(** ** The tools of [tools_2.py] *)

(** Input schema of the search tool: [limit] with [gt=0, le=100] and default
    10, [offset] with [ge=0] and default 0. *)
Module SearchRelatedActorsInput.

(** The arguments as the caller passes them; an absent pagination
    argument takes its default. *)
Record args : Type := {
  arg_search : string;
  arg_limit : option Z;
  arg_offset : option Z
}.

Record t : Type := {
  search : string;
  limit : Z;
  offset : Z
}.

Definition limit_ok (limit : Z) : bool := (0 <? limit)%Z && (limit <=? 100)%Z.

Definition offset_ok (offset : Z) : bool := (0 <=? offset)%Z.

(** Validation of the declared constraints; the error lists the fields
    that break theirs. *)
Definition given_limit (a : args) : Z :=
  match arg_limit a with Some l => l | None => 10%Z end.

Definition given_offset (a : args) : Z :=
  match arg_offset a with Some o => o | None => 0%Z end.

Definition validate (a : args) : result t :=
  let limit := given_limit a in
  let offset := given_offset a in
  let broken :=
    (if limit_ok limit then [] else ["limit"])
      ++ (if offset_ok offset then [] else ["offset"]) in
  match broken with
  | [] => Ok {| search := arg_search a; limit := limit; offset := offset |}
  | _ => Raise (ValidationError broken)
  end.

End SearchRelatedActorsInput.

(** The loop of [tool_get_actor_pricing_information]: [utc_now k] is the
    clock reading of iteration [k] ([datetime.now] is called once per
    entry); the loop breaks at the first entry that starts after it and
    otherwise keeps the entry. *)
Fixpoint pricing_loop (utc_now : nat -> Z) (k : nat) (current_pricing : pyval)
  (pricing_info : list pyval) : result pyval :=
  match pricing_info with
  | [] => Ok current_pricing
  | pricing_entry :: rest =>
      match pricing_entry with
      | PDict d =>
          match py_get d "startedAt" with
          | PDatetime started_at =>
              if (utc_now k <? started_at)%Z then Ok current_pricing
              else pricing_loop utc_now (S k) pricing_entry rest
          | _ => Raise TypeError
          end
      | _ => Raise AttributeError
      end
  end.

(** The ['startedAt'] of a pricing entry, when it is a datetime. *)
Definition started_at (entry : dict) : option Z :=
  match dict_get entry "startedAt" with
  | Some (PDatetime t) => Some t
  | _ => None
  end.

Section Tools.

(** The process environment, the client constructor and the clock. *)
Variable getenv : string -> option string.
Variable connect : string -> ApifyClient.
Variable utc_now : nat -> Z.

(** The models of [src.models] are not part of the sources at hand: their
    validation is a parameter. *)
Variables PricingInfo ActorStoreList : Type.
Variable PricingInfo_model_validate : pyval -> result PricingInfo.
Variable ActorStoreList_model_validate : list dict -> result ActorStoreList.

(** [str(e)] of a caught exception. *)
Variable exn_str : exn -> string.

Definition tool_get_actor_pricing_information (actor_id : string)
  : result PricingInfo :=
  token <- get_apify_token getenv ;;
  let apify_client := connect token in
  actor <- actor_get apify_client (PStr actor_id) ;;
  if negb (truthy (of_optional actor)) then
    Raise (ValueError ("Actor " ++ actor_id ++ " not found.")%string)
  else
    let pricing_info :=
      match actor with Some a => py_get a "pricingInfos" | None => PNone end in
    if negb (truthy pricing_info) then
      Raise (ValueError
               ("Failed to find pricing information for the Actor "
                  ++ actor_id ++ ".")%string)
    else
      entries <- py_iter pricing_info ;;
      current_pricing <- pricing_loop utc_now 0 PNone entries ;;
      PricingInfo_model_validate current_pricing.

(** [SearchRelatedActorsTool._run] *)
Definition SearchRelatedActorsTool_run (search : string) (limit offset : Z)
  : result ActorStoreList :=
  let attempt :=
    token <- get_apify_token getenv ;;
    store_list (connect token) limit offset search in
  match attempt with
  | Ok search_results => ActorStoreList_model_validate search_results
  | Raise e =>
      Raise (ValueError
               ("Failed to search for Actors related to '" ++ search
                  ++ "': " ++ exn_str e)%string)
  end.

(** Modelled from the spec: the call of the tool by the orchestration
    layer is not in the repository; the spec has the declared input
    constraints validated before the remote call is made, so the
    arguments go through [args_schema] and only a validated input
    reaches [_run]. *)
Definition SearchRelatedActorsTool_invoke (a : SearchRelatedActorsInput.args)
  : result ActorStoreList :=
  input <- SearchRelatedActorsInput.validate a ;;
  SearchRelatedActorsTool_run
    (SearchRelatedActorsInput.search input)
    (SearchRelatedActorsInput.limit input)
    (SearchRelatedActorsInput.offset input).

End Tools.

(** ** The build fetcher and the repository URLs of [utils.py] *)

Section Builds.

(** [str(v)] of a value that is not a string, as an f-string or
    [str.format] renders it. *)
Variable py_str : pyval -> string.

(** [requests.request('GET', url, timeout=...)] followed by
    [response.json()]: the decoded body, or what either raises. *)
Variable http_get_json : string -> result pyval.

(** A value inside an f-string or [str.format]: a string stands for
    itself. *)
Definition py_format (v : pyval) : string :=
  match v with
  | PStr s => s
  | _ => py_str v
  end.

(** [APIFY_API_ENDPOINT_GET_DEFAULT_BUILD.format(actor_id=...)] *)
Definition APIFY_API_ENDPOINT_GET_DEFAULT_BUILD (actor_id : pyval) : string :=
  ("https://api.apify.com/v2/acts/" ++ py_format actor_id
     ++ "/builds/default")%string.

(** [get_actor_id] as the code calls it on a value that need not be a
    string: [get_actor_github_urls] hands the resolved id on as
    [actor_name].  On a string it is [get_actor_id]. *)
Definition get_actor_id_of (apify_client : ApifyClient) (actor_name : pyval)
  : result pyval :=
  actor <- actor_get apify_client actor_name ;;
  if negb (truthy (of_optional actor)) then
    Raise (ValueError ("Actor " ++ py_format actor_name ++ " not found.")%string)
  else
    let actor_id :=
      match actor with Some a => py_get a "id" | None => PNone end in
    if negb (truthy actor_id) then
      Raise (ValueError
               ("Failed to get the Actor object ID for "
                  ++ py_format actor_name ++ ".")%string)
    else Ok actor_id.

(** The [TypeError] of a response that is not an object carries a message
    in the source; [TypeError] keeps the kind only. *)
Definition get_actor_latest_build (apify_client : ApifyClient)
  (actor_name : pyval) : result pyval :=
  actor_obj_id <- get_actor_id_of apify_client actor_name ;;
  let url := APIFY_API_ENDPOINT_GET_DEFAULT_BUILD actor_obj_id in
  build <- http_get_json url ;;
  match build with
  | PDict d =>
      match py_get d "data" with
      | PNone =>
          Raise (ValueError
                   ("Failed to get the latest build data of the Actor "
                      ++ py_format actor_name ++ ".")%string)
      | data => Ok data
      end
  | _ => Raise TypeError
  end.

(** [build.get('actVersion', {}).get('gitRepoUrl')] *)
Definition build_git_repo_url (build : pyval) : result pyval :=
  match build with
  | PDict b =>
      match py_get_default b "actVersion" (PDict []) with
      | PDict act_version => Ok (py_get act_version "gitRepoUrl")
      | _ => Raise AttributeError
      end
  | _ => Raise AttributeError
  end.

Definition get_actor_github_urls (apify_client : ApifyClient)
  (actor_name : string) : result (list pyval) :=
  actor_id <- get_actor_id apify_client actor_name ;;
  build <- get_actor_latest_build apify_client actor_id ;;
  github_repo_url <- build_git_repo_url build ;;
  let github_urls := if truthy github_repo_url then [github_repo_url] else [] in
  versions <- versions_list apify_client actor_id ;;
  Ok (github_urls
        ++ filter truthy (map (fun version => py_get version "gitRepoUrl")
                            versions)).

End Builds.

(** *** Orderings of pricing entries, used to state the properties *)

Definition dated (e : dict) : Prop := exists t, started_at e = Some t.

(** [e] starts at [now] or before. *)
Definition starts_by (now : Z) (e : dict) : Prop :=
  exists t, started_at e = Some t /\ (t <= now)%Z.

(** [e] starts strictly after [now]. *)
Definition starts_after (now : Z) (e : dict) : Prop :=
  exists t, started_at e = Some t /\ (now < t)%Z.

Definition starts_le (e1 e2 : dict) : Prop :=
  exists t1 t2,
    started_at e1 = Some t1 /\ started_at e2 = Some t2 /\ (t1 <= t2)%Z.

(** ** Sample data for the examples *)

(** A client that answers every lookup with [record] and every version
    listing with [versions]. *)
Definition sample_client (record : option dict) (versions : list dict)
  : ApifyClient :=
  {| actor_get := fun _ => Ok record;
     versions_list := fun _ => Ok versions;
     store_list := fun _ _ _ => Ok [] |}.

Definition sample_source_files : list pyval :=
  [ PDict [("name", PStr "src/main.py"); ("format", PStr "TEXT");
           ("content", PStr "print(1)")];
    PDict [("name", PStr "src"); ("folder", PBool true)];
    PDict [("name", PStr "logo.png"); ("format", PStr "BASE64");
           ("content", PStr "iVBOR")] ].

Definition sample_versions : list dict :=
  [ [("versionNumber", PStr "0.0"); ("buildTag", PStr "beta")];
    [("versionNumber", PStr "0.1"); ("buildTag", PStr "latest");
     ("sourceFiles", PList sample_source_files)] ].

Definition sample_getenv (name : string) : option string :=
  if String.eqb name "APIFY_TOKEN" then Some "apify_api_token" else None.

(** A stand-in for [PricingInfo.model_validate]: an object validates to its
    fields, anything else is a validation error. *)
Definition sample_model_validate (v : pyval) : result dict :=
  match v with
  | PDict d => Ok d
  | _ => Raise (ValidationError ["PricingInfo"])
  end.

Definition sample_entry (model : string) (t : Z) : dict :=
  [("pricingModel", PStr model); ("startedAt", PDatetime t)].

(** The pricing tool run on an actor record [record] at time [now]. *)
Definition sample_pricing (record : option dict) (now : Z) : result dict :=
  tool_get_actor_pricing_information sample_getenv
    (fun _ => sample_client record []) (fun _ => now) dict
    sample_model_validate "apify/web-scraper".

Definition sample_entries (now : Z) : list dict :=
  [ sample_entry "FREE" (now - 10)%Z;
    sample_entry "PRICE_PER_DATASET_ITEM" (now - 5)%Z;
    sample_entry "PAY_PER_EVENT" (now + 5)%Z ].

Definition sample_actor (pricing_infos : list dict) : dict :=
  [("id", PStr "abc"); ("pricingInfos", PList (map PDict pricing_infos))].

(** The segments of a record's path, or none when the record has no
    string ['name']. *)
Definition record_path (file_info : dict) : list string :=
  match path_parts_of file_info with
  | Ok parts => parts
  | Raise _ => []
  end.

(** A transport that serves [body] at the default-build URL of the actor
    ["abc"] and fails elsewhere. *)
Definition sample_http (body : pyval) (url : string) : result pyval :=
  if String.eqb url "https://api.apify.com/v2/acts/abc/builds/default"
  then Ok body
  else Raise (RemoteError "404").

Definition sample_py_str (v : pyval) : string := "<object>".

(** A client that knows the actor by its name only: a lookup by anything
    else finds nothing. *)
Definition sample_client_by_name (name : string) (record : dict)
  : ApifyClient :=
  {| actor_get := fun x => Ok (if py_eq_str x name then Some record else None);
     versions_list := fun _ => Ok [];
     store_list := fun _ _ _ => Ok [] |}.

Definition sample_repo_versions : list dict :=
  [ [("versionNumber", PStr "0.0"); ("sourceType", PStr "SOURCE_FILES")];
    [("versionNumber", PStr "0.1");
     ("gitRepoUrl", PStr "https://github.com/apify/web-scraper")];
    [("versionNumber", PStr "0.2"); ("gitRepoUrl", PStr "")] ].

Definition sample_build : pyval :=
  PDict [("data",
          PDict [("actVersion",
                  PDict [("gitRepoUrl",
                          PStr "https://github.com/apify/web-scraper")])])].

(** A stand-in for [ActorStoreList.model_validate]: the list as it is. *)
Definition sample_store_validate (items : list dict) : result (list dict) :=
  Ok items.

Definition sample_exn_str (e : exn) : string :=
  match e with
  | ValueError msg => msg
  | RemoteError msg => msg
  | _ => "error"
  end.

(** A client whose store search is down. *)
Definition sample_client_down : ApifyClient :=
  {| actor_get := fun _ => Ok None;
     versions_list := fun _ => Ok [];
     store_list := fun _ _ _ => Raise (RemoteError "503 Service Unavailable") |}.

(** The pricing tool run on the pricing list [pricing_infos], given as it
    comes, at time [now]. *)
Definition sample_pricing_raw (pricing_infos : list pyval) (now : Z)
  : result dict :=
  sample_pricing (Some [("id", PStr "abc"); ("pricingInfos", PList pricing_infos)])
    now.

(** * Properties *)

(** ** Dictionaries *)

Section DictFacts.

Context {V : Type}.
Implicit Types (d : list (string * V)) (k : string) (v : V).

Lemma dict_get_set_same d k v : dict_get (dict_set d k v) k = Some v.
Proof.
  induction d as [|[k0 w] d IH]; simpl.
  - now rewrite String.eqb_refl.
  - destruct (String.eqb k0 k) eqn:E; simpl; rewrite E; auto.
Qed.

Lemma dict_get_set_other d k k' v :
  k <> k' -> dict_get (dict_set d k v) k' = dict_get d k'.
Proof.
  intros Hne. induction d as [|[k0 w] d IH]; simpl.
  - destruct (String.eqb k k') eqn:E; auto.
    apply String.eqb_eq in E. contradiction.
  - destruct (String.eqb k0 k) eqn:E; simpl.
    + apply String.eqb_eq in E. subst k0.
      destruct (String.eqb k k') eqn:E'; auto.
      apply String.eqb_eq in E'. contradiction.
    + destruct (String.eqb k0 k'); auto.
Qed.

Lemma dict_get_In d k v : dict_get d k = Some v -> In (k, v) d.
Proof.
  induction d as [|[k0 w] d IH]; simpl; [discriminate|].
  destruct (String.eqb k0 k) eqn:E.
  - apply String.eqb_eq in E. intros [= ->]. subst. now left.
  - intros H. right. auto.
Qed.

Lemma dict_get_None d k : dict_get d k = None <-> ~ In k (keys d).
Proof.
  induction d as [|[k0 w] d IH]; simpl.
  - tauto.
  - destruct (String.eqb k0 k) eqn:E.
    + apply String.eqb_eq in E. split; [discriminate|]. intros H. tauto.
    + apply String.eqb_neq in E. rewrite IH. tauto.
Qed.

Lemma In_dict_get d k v :
  NoDup (keys d) -> In (k, v) d -> dict_get d k = Some v.
Proof.
  induction d as [|[k0 w] d IH]; simpl; [tauto|].
  intros Hnd [H|H].
  - injection H as -> ->. now rewrite String.eqb_refl.
  - inversion Hnd as [|? ? Hnotin Hnd']; subst.
    destruct (String.eqb k0 k) eqn:E.
    + apply String.eqb_eq in E. subst k0.
      exfalso. apply Hnotin. apply (in_map fst) in H. exact H.
    + auto.
Qed.

Lemma keys_dict_set d k v :
  keys (dict_set d k v)
  = match dict_get d k with Some _ => keys d | None => keys d ++ [k] end.
Proof.
  induction d as [|[k0 w] d IH]; simpl; auto.
  destruct (String.eqb k0 k) eqn:E; simpl; auto.
  rewrite IH. now destruct (dict_get d k).
Qed.

Lemma NoDup_keys_dict_set d k v :
  NoDup (keys d) -> NoDup (keys (dict_set d k v)).
Proof.
  intros Hnd. rewrite keys_dict_set.
  destruct (dict_get d k) eqn:E; auto.
  apply dict_get_None in E.
  apply NoDup_app_remove_l with (l := []). simpl.
  apply Permutation_NoDup with (l := k :: keys d).
  - apply Permutation_cons_append.
  - now constructor.
Qed.

End DictFacts.

(** ** The identifier resolver and the source-file retrieval *)

Lemma mentions_middle (pre needle post : string) :
  mentions (pre ++ needle ++ post)%string needle.
Proof. now exists pre, post. Qed.

Lemma get_actor_id_absent (apify_client : ApifyClient) (actor_name : string) :
  actor_get apify_client (PStr actor_name) = Ok None ->
  get_actor_id apify_client actor_name
  = Raise (ValueError ("Actor " ++ actor_name ++ " not found.")%string).
Proof. intros H. unfold get_actor_id. now rewrite H. Qed.

Lemma get_actor_id_no_id (apify_client : ApifyClient) (actor_name : string)
  (a : dict) :
  actor_get apify_client (PStr actor_name) = Ok (Some a) ->
  a <> [] ->
  dict_get a "id" = None ->
  get_actor_id apify_client actor_name
  = Raise (ValueError
             ("Failed to get the Actor object ID for " ++ actor_name ++ ".")%string).
Proof.
  intros H Hne Hid. unfold get_actor_id. rewrite H. simpl.
  destruct a as [|kv a]; [contradiction|]. simpl.
  unfold py_get. now rewrite Hid.
Qed.

(** C8: when the lookup of [actor_name] finds no record, [get_actor_id] raises
    the not-found [ValueError] whose message contains the name; when the
    record is there without an ['id'], it raises a [ValueError] whose
    message contains the name as well (the "Failed to get the Actor object
    ID" one for a record with other fields). *)
Theorem get_actor_id_failures (apify_client : ApifyClient)
  (actor_name : string) (actor : option dict) :
  actor_get apify_client (PStr actor_name) = Ok actor ->
  (actor = None \/ exists a, actor = Some a /\ dict_get a "id" = None) ->
  exists msg,
    get_actor_id apify_client actor_name = Raise (ValueError msg)
    /\ mentions msg actor_name
    /\ (actor = None -> msg = ("Actor " ++ actor_name ++ " not found.")%string)
    /\ (forall a, actor = Some a -> a <> [] ->
        msg = ("Failed to get the Actor object ID for "
                 ++ actor_name ++ ".")%string).
Proof.
  intros Hget [-> | (a & -> & Hid)].
  - eexists. split; [now apply get_actor_id_absent|].
    split; [apply mentions_middle|]. split; [reflexivity|discriminate].
  - destruct a as [|kv a].
    + eexists. split.
      * unfold get_actor_id. rewrite Hget. reflexivity.
      * split; [apply mentions_middle|]. split; [discriminate|].
        intros a [= <-] Hne. contradiction.
    + eexists. split.
      * apply (get_actor_id_no_id _ _ (kv :: a)); auto. discriminate.
      * split; [apply mentions_middle|]. split; [discriminate|]. reflexivity.
Qed.

Lemma get_actor_id_failures_witness :
  (exists msg,
      get_actor_id (sample_client None []) "apify/none" = Raise (ValueError msg)
      /\ mentions msg "apify/none")
  /\ (exists msg,
      get_actor_id (sample_client (Some [("name", PStr "x")]) []) "apify/x"
      = Raise (ValueError msg)
      /\ msg = "Failed to get the Actor object ID for apify/x.").
Proof.
  split.
  - destruct (get_actor_id_failures (sample_client None []) "apify/none" None
                eq_refl (or_introl eq_refl)) as (msg & H1 & H2 & _).
    exists msg. split; assumption.
  - destruct (get_actor_id_failures
                (sample_client (Some [("name", PStr "x")]) []) "apify/x"
                (Some [("name", PStr "x")]) eq_refl
                (or_intror (ex_intro _ _ (conj eq_refl eq_refl))))
      as (msg & H1 & _ & _ & H4).
    exists msg. split; [assumption|].
    apply (H4 _ eq_refl). discriminate.
Defined.

Lemma find_none_iff {A : Type} (f : A -> bool) (l : list A) :
  find f l = None <-> Forall (fun x => f x = false) l.
Proof.
  induction l as [|x l IH]; simpl.
  - split; auto.
  - destruct (f x) eqn:E.
    + split; [discriminate|]. intros H. inversion H; congruence.
    + rewrite IH. split; [now constructor|]. intros H. now inversion H.
Qed.

Lemma is_latest_spec (x : dict) :
  is_latest x = true <-> dict_get x "buildTag" = Some (PStr "latest").
Proof.
  unfold is_latest, py_get, py_eq_str.
  destruct (dict_get x "buildTag") as [[]|]; try (split; discriminate).
  split.
  - intros H. apply String.eqb_eq in H. now subst.
  - intros [= ->]. reflexivity.
Qed.

(** C7: when no version of the actor carries the build tag ['latest'],
    [get_actor_source_files] returns the empty list. *)
Theorem get_actor_source_files_no_latest (apify_client : ApifyClient)
  (actor_name : string) (actor_id : pyval) (versions : list dict) :
  get_actor_id apify_client actor_name = Ok actor_id ->
  versions_list apify_client actor_id = Ok versions ->
  Forall (fun v => dict_get v "buildTag" <> Some (PStr "latest")) versions ->
  get_actor_source_files apify_client actor_name = Ok [].
Proof.
  intros Hid Hvs Hnone. unfold get_actor_source_files.
  rewrite Hid. simpl. rewrite Hvs. simpl.
  assert (Hfind : find is_latest versions = None).
  { apply find_none_iff. eapply Forall_impl; [|exact Hnone].
    intros v Hv. destruct (is_latest v) eqn:E; auto.
    apply is_latest_spec in E. contradiction. }
  now rewrite Hfind.
Qed.

Lemma get_actor_source_files_no_latest_witness :
  get_actor_source_files
    (sample_client (Some [("id", PStr "abc")])
       [[("versionNumber", PStr "0.1"); ("buildTag", PStr "beta")]])
    "apify/web-scraper"
  = Ok [].
Proof.
  apply (get_actor_source_files_no_latest _ _ (PStr "abc")
           [[("versionNumber", PStr "0.1"); ("buildTag", PStr "beta")]]).
  - reflexivity.
  - reflexivity.
  - constructor; [discriminate|constructor].
Defined.

Lemma find_some_latest (versions : list dict) (version : dict) :
  find is_latest versions = Some version ->
  truthy (PDict version) = true.
Proof.
  intros H. apply find_some in H. destruct H as [_ H].
  apply is_latest_spec in H. destruct version; [discriminate|reflexivity].
Qed.

Lemma is_text_file_entry (x : pyval) :
  file_entry x -> is_text_file x = Ok (has_text_format x).
Proof.
  intros (d & -> & [H | [s H]]); unfold is_text_file, py_get_default; simpl;
    now rewrite H.
Qed.

Lemma is_text_file_true (x : pyval) :
  is_text_file x = Ok true -> has_text_format x = true.
Proof.
  unfold is_text_file, py_get_default, has_text_format.
  destruct x; try discriminate.
  destruct (dict_get d "format") as [[]|]; try discriminate.
  now intros [= ->].
Qed.

Lemma filter_raising_entries (items : list pyval) :
  Forall file_entry items ->
  filter_raising is_text_file items = Ok (filter has_text_format items).
Proof.
  induction 1 as [|x items Hx _ IH]; simpl; auto.
  rewrite (is_text_file_entry x Hx). simpl. rewrite IH. simpl.
  now destruct (has_text_format x).
Qed.

Lemma filter_raising_kept (items res : list pyval) :
  filter_raising is_text_file items = Ok res ->
  Forall (fun x => has_text_format x = true) res
  /\ (forall x, In x res -> In x items).
Proof.
  revert res. induction items as [|x items IH]; simpl; intros res H.
  - injection H as <-. split; [constructor|tauto].
  - destruct (is_text_file x) as [keep|] eqn:Ex; [|discriminate]. simpl in H.
    destruct (filter_raising is_text_file items) as [kept|]; [|discriminate].
    simpl in H. injection H as <-.
    destruct (IH kept eq_refl) as [IH1 IH2].
    destruct keep.
    + split.
      * constructor; auto. now apply is_text_file_true.
      * intros y [->|Hy]; [now left|right; auto].
    + split; auto.
Qed.

(** C10, as the code has it: every entry [get_actor_source_files] returns
    has a ['format'] that equals ['text'] up to case; and for a selected
    version whose ['sourceFiles'] is a list of objects with a string or no
    ['format'], the returned list is exactly the entries with such a
    format, in order: any entry with another format or none is dropped. *)
Theorem get_actor_source_files_text_only (apify_client : ApifyClient)
  (actor_name : string) :
  (forall res,
      get_actor_source_files apify_client actor_name = Ok res ->
      Forall (fun x => has_text_format x = true) res)
  /\ (forall actor_id versions version files,
      get_actor_id apify_client actor_name = Ok actor_id ->
      versions_list apify_client actor_id = Ok versions ->
      find is_latest versions = Some version ->
      dict_get version "sourceFiles" = Some (PList files) ->
      Forall file_entry files ->
      get_actor_source_files apify_client actor_name
      = Ok (filter has_text_format files)
      /\ forall x, In x files -> has_text_format x = false ->
           ~ In x (filter has_text_format files)).
Proof.
  split.
  - intros res. unfold get_actor_source_files.
    destruct (get_actor_id apify_client actor_name) as [actor_id|]; simpl;
      [|discriminate].
    destruct (versions_list apify_client actor_id) as [versions|]; simpl;
      [|discriminate].
    destruct (negb (truthy (of_optional (find is_latest versions)))).
    + intros [= <-]. constructor.
    + destruct (py_iter _) as [items|]; simpl; [|discriminate].
      intros H. now apply filter_raising_kept in H.
  - intros actor_id versions version files Hid Hvs Hfind Hsrc Hfiles. split.
    + unfold get_actor_source_files. rewrite Hid. simpl. rewrite Hvs. simpl.
      rewrite Hfind. cbn [of_optional].
      rewrite (find_some_latest _ _ Hfind). cbn [negb].
      unfold py_get. rewrite Hsrc. simpl.
      now apply filter_raising_entries.
    + intros x _ Hx Hin. apply filter_In in Hin. destruct Hin as [_ Hin].
      congruence.
Qed.

Lemma get_actor_source_files_text_only_witness :
  get_actor_source_files
    (sample_client (Some [("id", PStr "abc")]) sample_versions)
    "apify/web-scraper"
  = Ok [ PDict [("name", PStr "src/main.py"); ("format", PStr "TEXT");
                ("content", PStr "print(1)")] ].
Proof.
  apply (proj2 (get_actor_source_files_text_only
                  (sample_client (Some [("id", PStr "abc")]) sample_versions)
                  "apify/web-scraper")
           (PStr "abc") sample_versions
           [("versionNumber", PStr "0.1"); ("buildTag", PStr "latest");
            ("sourceFiles", PList sample_source_files)]
           sample_source_files).
  - reflexivity.
  - reflexivity.
  - reflexivity.
  - reflexivity.
  - repeat constructor;
      eexists; (split; [reflexivity|]);
      first [ left; reflexivity | right; eexists; reflexivity ].
Defined.

(** C10 fails for an entry whose ['format'] is not a string: with a
    ['format'] of [None] beside a text file, nothing is dropped and nothing
    is returned, [.lower()] raises [AttributeError]; so does an entry that
    is not an object. *)
Lemma get_actor_source_files_null_format_raises :
  get_actor_source_files
    (sample_client (Some [("id", PStr "abc")])
       [[("buildTag", PStr "latest");
         ("sourceFiles",
          PList [PDict [("name", PStr "src/main.py"); ("format", PStr "TEXT")];
                 PDict [("name", PStr "logo.png"); ("format", PNone)]])]])
    "apify/web-scraper"
  = Raise AttributeError
  /\ get_actor_source_files
       (sample_client (Some [("id", PStr "abc")])
          [[("buildTag", PStr "latest");
            ("sourceFiles",
             PList [PDict [("name", PStr "src/main.py"); ("format", PStr "TEXT")];
                    PStr "logo.png"])]])
       "apify/web-scraper"
     = Raise AttributeError.
Proof. split; reflexivity. Qed.

(** ** The search tool's input schema *)

Module SearchFacts.
Import SearchRelatedActorsInput.

Lemma limit_ok_spec (l : Z) : limit_ok l = true <-> (1 <= l <= 100)%Z.
Proof. unfold limit_ok. rewrite andb_true_iff, Z.ltb_lt, Z.leb_le. lia. Qed.

Lemma offset_ok_spec (o : Z) : offset_ok o = true <-> (0 <= o)%Z.
Proof. unfold offset_ok. now rewrite Z.leb_le. Qed.

Lemma validate_accepts (a : args) :
  (1 <= given_limit a <= 100)%Z -> (0 <= given_offset a)%Z ->
  validate a
  = Ok {| search := arg_search a;
          limit := given_limit a;
          offset := given_offset a |}.
Proof.
  intros Hl Ho. unfold validate.
  apply limit_ok_spec in Hl. apply offset_ok_spec in Ho.
  now rewrite Hl, Ho.
Qed.

Lemma validate_rejects (a : args) :
  ~ ((1 <= given_limit a <= 100)%Z /\ (0 <= given_offset a)%Z) ->
  exists fields, fields <> [] /\ validate a = Raise (ValidationError fields).
Proof.
  intros Hbad. unfold validate.
  destruct (limit_ok (given_limit a)) eqn:El.
  - destruct (offset_ok (given_offset a)) eqn:Eo.
    + apply limit_ok_spec in El. apply offset_ok_spec in Eo. tauto.
    + exists ["offset"]. split; [discriminate|reflexivity].
  - destruct (offset_ok (given_offset a)).
    + exists ["limit"]. split; [discriminate|reflexivity].
    + exists ["limit"; "offset"]. split; [discriminate|reflexivity].
Qed.

Lemma validate_inv (a : args) (i : t) :
  validate a = Ok i ->
  limit i = given_limit a /\ offset i = given_offset a
  /\ (1 <= limit i <= 100)%Z /\ (0 <= offset i)%Z.
Proof.
  unfold validate.
  destruct (limit_ok (given_limit a)) eqn:El;
    destruct (offset_ok (given_offset a)) eqn:Eo; try discriminate.
  intros [= <-]. simpl.
  apply limit_ok_spec in El. apply offset_ok_spec in Eo. tauto.
Qed.

End SearchFacts.

(** C9: the input schema of the search tool accepts exactly the inputs with
    [1 <= limit <= 100] and [0 <= offset]: an accepted input is in range,
    an input out of range is rejected with a validation error, and an
    invocation with such an input ends in that error whatever the remote
    side would answer, while an input in range reaches [_run] with its
    values. *)
Theorem search_input_validated (a : SearchRelatedActorsInput.args) :
  (forall i, SearchRelatedActorsInput.validate a = Ok i ->
     (1 <= SearchRelatedActorsInput.limit i <= 100)%Z
     /\ (0 <= SearchRelatedActorsInput.offset i)%Z)
  /\ (~ ((1 <= SearchRelatedActorsInput.given_limit a <= 100)%Z
         /\ (0 <= SearchRelatedActorsInput.given_offset a)%Z) ->
      exists fields,
        SearchRelatedActorsInput.validate a = Raise (ValidationError fields)
        /\ forall getenv connect (ActorStoreList : Type)
             (model_validate : list dict -> result ActorStoreList) exn_str,
            SearchRelatedActorsTool_invoke getenv connect ActorStoreList
              model_validate exn_str a
            = Raise (ValidationError fields))
  /\ ((1 <= SearchRelatedActorsInput.given_limit a <= 100)%Z ->
      (0 <= SearchRelatedActorsInput.given_offset a)%Z ->
      is_ok (SearchRelatedActorsInput.validate a) = true
      /\ forall getenv connect (ActorStoreList : Type)
           (model_validate : list dict -> result ActorStoreList) exn_str,
          SearchRelatedActorsTool_invoke getenv connect ActorStoreList
            model_validate exn_str a
          = SearchRelatedActorsTool_run getenv connect ActorStoreList
              model_validate exn_str
              (SearchRelatedActorsInput.arg_search a)
              (SearchRelatedActorsInput.given_limit a)
              (SearchRelatedActorsInput.given_offset a)).
Proof.
  split; [|split].
  - intros i Hi. apply SearchFacts.validate_inv in Hi. tauto.
  - intros Hbad.
    destruct (SearchFacts.validate_rejects a Hbad) as (fields & _ & Hv).
    exists fields. split; [exact Hv|].
    intros. unfold SearchRelatedActorsTool_invoke. now rewrite Hv.
  - intros Hl Ho. pose proof (SearchFacts.validate_accepts a Hl Ho) as Hv.
    split; [now rewrite Hv|].
    intros. unfold SearchRelatedActorsTool_invoke. now rewrite Hv.
Qed.

Lemma search_input_validated_witness :
  (SearchRelatedActorsInput.validate
     {| SearchRelatedActorsInput.arg_search := "scraper";
        SearchRelatedActorsInput.arg_limit := Some 0%Z;
        SearchRelatedActorsInput.arg_offset := None |}
   = Raise (ValidationError ["limit"]))
  /\ is_ok (SearchRelatedActorsInput.validate
              {| SearchRelatedActorsInput.arg_search := "scraper";
                 SearchRelatedActorsInput.arg_limit := Some 100%Z;
                 SearchRelatedActorsInput.arg_offset := Some 0%Z |}) = true.
Proof.
  split.
  - destruct (proj1 (proj2 (search_input_validated
        {| SearchRelatedActorsInput.arg_search := "scraper";
           SearchRelatedActorsInput.arg_limit := Some 0%Z;
           SearchRelatedActorsInput.arg_offset := None |})))
      as (fields & Hv & _).
    + unfold SearchRelatedActorsInput.given_limit; simpl. lia.
    + rewrite Hv. revert Hv. vm_compute. intros [= <-]. reflexivity.
  - apply (proj2 (proj2 (search_input_validated
        {| SearchRelatedActorsInput.arg_search := "scraper";
           SearchRelatedActorsInput.arg_limit := Some 100%Z;
           SearchRelatedActorsInput.arg_offset := Some 0%Z |})));
      unfold SearchRelatedActorsInput.given_limit,
        SearchRelatedActorsInput.given_offset; simpl; lia.
Defined.

(** ** The pricing selector *)

Lemma last_cons_default {A : Type} (l : list A) (a d : A) :
  last (a :: l) d = last l a.
Proof.
  revert a d. induction l as [|b l IH]; intros a d; [reflexivity|].
  change (last (a :: b :: l) d) with (last (b :: l) d).
  now rewrite (IH b d), (IH b a).
Qed.

Lemma pricing_loop_step (utc_now : nat -> Z) (k : nat) (cur : pyval)
  (e : dict) (rest : list pyval) (t : Z) :
  started_at e = Some t ->
  pricing_loop utc_now k cur (PDict e :: rest)
  = if (utc_now k <? t)%Z then Ok cur
    else pricing_loop utc_now (S k) (PDict e) rest.
Proof.
  unfold started_at. simpl. unfold py_get.
  destruct (dict_get e "startedAt") as [[]|]; try discriminate.
  now intros [= ->].
Qed.

(** The scan, with no assumption on the order of the entries: the loop goes
    through the longest run of leading entries that start by [now] and
    returns the last of them. *)
Lemma pricing_loop_scan (utc_now : nat -> Z) (now : Z) (es : list dict) :
  (forall k, utc_now k = now) ->
  Forall dated es ->
  forall k cur,
  exists pre post,
    es = pre ++ post
    /\ Forall (starts_by now) pre
    /\ match post with [] => True | e :: _ => starts_after now e end
    /\ pricing_loop utc_now k cur (map PDict es)
       = Ok (last (map PDict pre) cur).
Proof.
  intros Hnow Hdated. induction Hdated as [|e es [t Ht] _ IH]; intros k cur.
  - exists [], []. simpl. auto.
  - simpl map. rewrite (pricing_loop_step _ _ _ _ _ _ Ht), Hnow.
    destruct (now <? t)%Z eqn:E.
    + apply Z.ltb_lt in E. exists [], (e :: es). simpl.
      repeat split; auto. now exists t.
    + apply Z.ltb_ge in E.
      destruct (IH (S k) (PDict e)) as (pre & post & -> & Hpre & Hpost & Hrun).
      exists (e :: pre), post. repeat split; auto.
      * constructor; auto. now exists t.
      * rewrite Hrun. simpl map. now rewrite last_cons_default.
Qed.

Lemma starts_le_trans : Transitive starts_le.
Proof.
  intros e1 e2 e3 (t1 & t2 & H1 & H2 & H12) (t2' & t3 & H2' & H3 & H23).
  exists t1, t3. rewrite H2 in H2'. injection H2' as <-.
  repeat split; auto. lia.
Qed.

Lemma starts_after_not_by (now : Z) (e : dict) :
  starts_after now e -> starts_by now e -> False.
Proof. intros (t & H & Hlt) (t' & H' & Hle). rewrite H in H'. injection H' as <-. lia. Qed.

Lemma starts_after_le (now : Z) (e1 e2 : dict) :
  starts_after now e1 -> starts_le e1 e2 -> starts_after now e2.
Proof.
  intros (t & H & Hlt) (t1 & t2 & H1 & H2 & Hle).
  rewrite H in H1. injection H1 as <-. exists t2. split; auto. lia.
Qed.

Lemma StronglySorted_app_r {A : Type} (R : A -> A -> Prop) (l1 l2 : list A) :
  StronglySorted R (l1 ++ l2) -> StronglySorted R l2.
Proof.
  induction l1 as [|a l1 IH]; simpl; auto.
  intros H. inversion H. auto.
Qed.

Lemma StronglySorted_snoc_le {A : Type} (R : A -> A -> Prop)
  (l : list A) (a : A) :
  StronglySorted R (l ++ [a]) -> Forall (fun x => R x a) l.
Proof.
  induction l as [|b l IH]; simpl; [constructor|].
  intros H. inversion H as [|? ? Hs Hall]; subst. constructor; auto.
  rewrite Forall_forall in Hall. apply Hall. apply in_or_app. right. now left.
Qed.

Lemma StronglySorted_app_l {A : Type} (R : A -> A -> Prop) (l1 l2 : list A) :
  StronglySorted R (l1 ++ l2) -> StronglySorted R l1.
Proof.
  induction l1 as [|a l1 IH]; simpl; [constructor|].
  intros H. inversion H as [|? ? Hs Hall]; subst. constructor; auto.
  rewrite Forall_forall in *. intros x Hx. apply Hall. apply in_or_app. now left.
Qed.

(** On entries sorted by start, the loop returns the last entry that starts
    by [now], which is one with the latest such start. *)
Lemma pricing_loop_latest (utc_now : nat -> Z) (now : Z) (es : list dict) :
  (forall k, utc_now k = now) ->
  Forall dated es ->
  Sorted starts_le es ->
  Exists (starts_by now) es ->
  exists pre e post,
    es = pre ++ e :: post
    /\ Forall (starts_by now) pre
    /\ starts_by now e
    /\ Forall (starts_after now) post
    /\ (forall e', In e' es -> starts_by now e' -> starts_le e' e)
    /\ pricing_loop utc_now 0 PNone (map PDict es) = Ok (PDict e).
Proof.
  intros Hnow Hdated Hsorted Hex.
  apply (Sorted_StronglySorted starts_le_trans) in Hsorted.
  destruct (pricing_loop_scan utc_now now es Hnow Hdated 0%nat PNone)
    as (pre & post & -> & Hpre & Hpost & Hrun).
  assert (Hafter : Forall (starts_after now) post).
  { apply StronglySorted_app_r in Hsorted.
    destruct post as [|p post]; [constructor|].
    inversion Hsorted as [|? ? _ Hall]; subst. constructor; auto.
    eapply Forall_impl; [|exact Hall].
    intros x Hx. now apply (starts_after_le now p). }
  destruct (exists_last (l := pre)) as (pre' & e & ->).
  { intros ->. simpl in Hex. apply Exists_exists in Hex.
    destruct Hex as (x & Hx & Hby). rewrite Forall_forall in Hafter.
    exact (starts_after_not_by now x (Hafter x Hx) Hby). }
  exists pre', e, post. rewrite <- app_assoc. simpl.
  apply Forall_app in Hpre. destruct Hpre as [Hpre' He].
  inversion He as [|? ? Hby _]; subst.
  repeat split; auto.
  - intros e' Hin Hby'.
    apply in_app_or in Hin. destruct Hin as [Hin|[<-|Hin]].
    + apply StronglySorted_app_l in Hsorted.
      apply StronglySorted_snoc_le in Hsorted.
      rewrite Forall_forall in Hsorted. auto.
    + destruct Hby as (t & Ht & _). exists t, t. repeat split; auto. lia.
    + rewrite Forall_forall in Hafter.
      destruct (starts_after_not_by now e' (Hafter e' Hin) Hby').
  - rewrite <- app_assoc in Hrun. simpl in Hrun. rewrite Hrun.
    rewrite map_app. simpl. now rewrite last_last.
Qed.

Section PricingTool.

Variable getenv : string -> option string.
Variable connect : string -> ApifyClient.
Variable utc_now : nat -> Z.
Variable PricingInfo : Type.
Variable model_validate : pyval -> result PricingInfo.

Variables (token actor_id : string) (actor : dict) (now : Z).

(** The credential is set, the actor exists, and the clock stands at
    [now] while the entries are scanned. *)
Hypothesis Htoken : get_apify_token getenv = Ok token.
Hypothesis Hactor :
  actor_get (connect token) (PStr actor_id) = Ok (Some actor).
Hypothesis Hnow : forall k, utc_now k = now.

Local Abbreviation run :=
  (tool_get_actor_pricing_information getenv connect utc_now PricingInfo
     model_validate actor_id).

Local Abbreviation missing_data :=
  (ValueError ("Failed to find pricing information for the Actor "
                 ++ actor_id ++ ".")%string).

Local Abbreviation not_found :=
  (ValueError ("Actor " ++ actor_id ++ " not found.")%string).

Lemma tool_runs_loop (items : list pyval) :
  dict_get actor "pricingInfos" = Some (PList items) ->
  items <> [] ->
  run = (current_pricing <- pricing_loop utc_now 0 PNone items ;;
         model_validate current_pricing).
Proof.
  intros Hinfo Hne. unfold tool_get_actor_pricing_information.
  rewrite Htoken. simpl. rewrite Hactor. simpl.
  destruct actor as [|kv a]; [discriminate|]. cbn [negb].
  unfold py_get. rewrite Hinfo.
  destruct items; [contradiction|]. reflexivity.
Qed.

Lemma tool_no_pricing_data :
  actor <> [] ->
  dict_get actor "pricingInfos" = Some (PList [])
  \/ dict_get actor "pricingInfos" = None ->
  run = Raise missing_data.
Proof.
  intros Hne Hinfo. unfold tool_get_actor_pricing_information.
  rewrite Htoken. simpl. rewrite Hactor. simpl.
  destruct actor as [|kv a]; [contradiction|]. cbn [negb].
  unfold py_get. now destruct Hinfo as [-> | ->].
Qed.

(** C2: on entries sorted by ['startedAt'], the tool validates and
    returns the entry [e] that precedes the first entry starting after
    [now]: every entry before [e] starts by [now], every entry after it
    starts later, and no entry that starts by [now] starts after [e].
    For starts [now-10, now-5, now+5] it is the second entry. *)
Theorem pricing_selector_latest :
  (forall es,
      dict_get actor "pricingInfos" = Some (PList (map PDict es)) ->
      Forall dated es ->
      Sorted starts_le es ->
      Exists (starts_by now) es ->
      exists pre e post,
        es = pre ++ e :: post
        /\ Forall (starts_by now) pre
        /\ starts_by now e
        /\ Forall (starts_after now) post
        /\ (forall e', In e' es -> starts_by now e' -> starts_le e' e)
        /\ run = model_validate (PDict e))
  /\ (forall e1 e2 e3,
      dict_get actor "pricingInfos" = Some (PList [PDict e1; PDict e2; PDict e3]) ->
      started_at e1 = Some (now - 10)%Z ->
      started_at e2 = Some (now - 5)%Z ->
      started_at e3 = Some (now + 5)%Z ->
      run = model_validate (PDict e2)).
Proof.
  split.
  - intros es Hinfo Hdated Hsorted Hex.
    destruct (pricing_loop_latest utc_now now es Hnow Hdated Hsorted Hex)
      as (pre & e & post & Hes & Hpre & He & Hpost & Hmax & Hrun).
    exists pre, e, post. repeat split; auto.
    rewrite (tool_runs_loop _ Hinfo), Hrun; [reflexivity|].
    rewrite Hes. destruct pre; discriminate.
  - intros e1 e2 e3 Hinfo H1 H2 H3.
    rewrite (tool_runs_loop _ Hinfo) by discriminate.
    rewrite (pricing_loop_step _ _ _ _ _ _ H1), Hnow.
    replace (now <? now - 10)%Z with false by (symmetry; apply Z.ltb_ge; lia).
    rewrite (pricing_loop_step _ _ _ _ _ _ H2), Hnow.
    replace (now <? now - 5)%Z with false by (symmetry; apply Z.ltb_ge; lia).
    rewrite (pricing_loop_step _ _ _ _ _ _ H3), Hnow.
    replace (now <? now + 5)%Z with true by (symmetry; apply Z.ltb_lt; lia).
    reflexivity.
Qed.

(** C3, as the code has it: an empty list of entries raises the same
    "Failed to find pricing information" error as a record without the
    field; a non-empty list whose entries all start after [now] selects
    nothing and the outcome is that of validating [None] against
    [PricingInfo], which, when it is a validation error, is neither the
    not-found nor the missing-data error. *)
Theorem no_active_pricing :
  (actor <> [] ->
   dict_get actor "pricingInfos" = Some (PList [])
   \/ dict_get actor "pricingInfos" = None ->
   run = Raise missing_data)
  /\ (forall es,
      es <> [] ->
      dict_get actor "pricingInfos" = Some (PList (map PDict es)) ->
      Forall (starts_after now) es ->
      run = model_validate PNone
      /\ forall fields,
          model_validate PNone = Raise (ValidationError fields) ->
          run <> Raise not_found /\ run <> Raise missing_data).
Proof.
  split; [exact tool_no_pricing_data|].
  intros es Hne Hinfo Hafter.
  assert (Hrun : run = model_validate PNone).
  { rewrite (tool_runs_loop _ Hinfo) by (destruct es; [contradiction|discriminate]).
    destruct es as [|e es]; [contradiction|].
    inversion Hafter as [|? ? (t & Ht & Hlt) _]; subst.
    simpl map. rewrite (pricing_loop_step _ _ _ _ _ _ Ht), Hnow.
    apply Z.ltb_lt in Hlt. now rewrite Hlt. }
  split; [exact Hrun|].
  intros fields Hval. rewrite Hrun, Hval. split; discriminate.
Qed.

End PricingTool.

Lemma sample_entries_sorted (now : Z) :
  Forall dated (sample_entries now) /\ Sorted starts_le (sample_entries now).
Proof.
  split.
  - repeat constructor; eexists; reflexivity.
  - repeat constructor;
      (eexists; eexists; split; [reflexivity|split; [reflexivity|lia]]).
Qed.

Lemma pricing_selector_latest_witness :
  sample_pricing (Some (sample_actor (sample_entries 1000))) 1000
  = Ok (sample_entry "PRICE_PER_DATASET_ITEM" 995)
  /\ exists e,
      starts_by 1000 e
      /\ sample_pricing (Some (sample_actor (sample_entries 1000))) 1000
         = sample_model_validate (PDict e).
Proof.
  pose proof (pricing_selector_latest sample_getenv
                (fun _ => sample_client
                            (Some (sample_actor (sample_entries 1000))) [])
                (fun _ => 1000%Z) dict sample_model_validate
                "apify_api_token" "apify/web-scraper"
                (sample_actor (sample_entries 1000)) 1000%Z
                eq_refl eq_refl (fun _ => eq_refl)) as [Hgeneral Hexample].
  split.
  - apply (Hexample (sample_entry "FREE" 990)
             (sample_entry "PRICE_PER_DATASET_ITEM" 995)
             (sample_entry "PAY_PER_EVENT" 1005)); reflexivity.
  - destruct (Hgeneral (sample_entries 1000) eq_refl
                (proj1 (sample_entries_sorted 1000))
                (proj2 (sample_entries_sorted 1000)))
      as (pre & e & post & _ & _ & He & _ & _ & Hrun).
    + apply Exists_cons_hd. exists 990%Z. split; [reflexivity|lia].
    + exists e. split; assumption.
Defined.

Lemma no_active_pricing_witness :
  sample_pricing (Some (sample_actor [sample_entry "FREE" 2000])) 1000
  = Raise (ValidationError ["PricingInfo"])
  /\ sample_pricing (Some (sample_actor [])) 1000
     = Raise (ValueError
                "Failed to find pricing information for the Actor apify/web-scraper.").
Proof.
  split.
  - apply (proj2 (no_active_pricing sample_getenv
                    (fun _ => sample_client
                                (Some (sample_actor [sample_entry "FREE" 2000])) [])
                    (fun _ => 1000%Z) dict sample_model_validate
                    "apify_api_token" "apify/web-scraper"
                    (sample_actor [sample_entry "FREE" 2000]) 1000%Z
                    eq_refl eq_refl (fun _ => eq_refl))
             [sample_entry "FREE" 2000]).
    + discriminate.
    + reflexivity.
    + constructor; [|constructor]. exists 2000%Z. split; [reflexivity|lia].
  - apply (proj1 (no_active_pricing sample_getenv
                    (fun _ => sample_client (Some (sample_actor [])) [])
                    (fun _ => 1000%Z) dict sample_model_validate
                    "apify_api_token" "apify/web-scraper"
                    (sample_actor []) 1000%Z
                    eq_refl eq_refl (fun _ => eq_refl))).
    + discriminate.
    + left. reflexivity.
Defined.

(** C3 fails for the empty list: it is reported with the very error a
    record without ['pricingInfos'] gets, not as a condition of its own. *)
Lemma no_active_pricing_empty_is_missing_data :
  sample_pricing (Some (sample_actor [])) 1000
  = Raise (ValueError
             "Failed to find pricing information for the Actor apify/web-scraper.")
  /\ sample_pricing (Some [("id", PStr "abc")]) 1000
     = sample_pricing (Some (sample_actor [])) 1000.
Proof. split; reflexivity. Qed.

(** ** Splitting paths *)

Lemma split_slash_nonempty (s : string) : split_slash s <> [].
Proof.
  destruct s as [|c s]; simpl; [discriminate|].
  destruct (Ascii.eqb c "/"); [discriminate|].
  destruct (split_slash s); discriminate.
Qed.

Lemma join_split_slash (s : string) : join_slash (split_slash s) = s.
Proof.
  induction s as [|c s IH]; [reflexivity|]. simpl.
  destruct (Ascii.eqb c "/") eqn:E.
  - apply Ascii.eqb_eq in E. subst c.
    pose proof (split_slash_nonempty s) as Hne.
    destruct (split_slash s) as [|seg segs]; [contradiction|].
    change (join_slash ("" :: seg :: segs))
      with (String "/" (join_slash (seg :: segs))).
    now rewrite IH.
  - pose proof (split_slash_nonempty s) as Hne.
    destruct (split_slash s) as [|seg segs]; [contradiction|].
    destruct segs as [|seg' segs].
    + simpl in *. now rewrite IH.
    + change (join_slash (String c seg :: seg' :: segs))
        with (String c (seg ++ String "/" (join_slash (seg' :: segs))))%string.
      change (join_slash (seg :: seg' :: segs))
        with (seg ++ String "/" (join_slash (seg' :: segs)))%string in IH.
      now rewrite IH.
Qed.

Lemma split_slash_inj (s1 s2 : string) :
  split_slash s1 = split_slash s2 -> s1 = s2.
Proof.
  intros H. rewrite <- (join_split_slash s1), <- (join_split_slash s2).
  now rewrite H.
Qed.

Lemma nodup_map_inj_length {A B : Type} (decA : forall x y : A, {x = y} + {x <> y})
  (decB : forall x y : B, {x = y} + {x <> y}) (f : A -> B) (l : list A) :
  (forall x y, f x = f y -> x = y) ->
  List.length (nodup decB (map f l)) = List.length (nodup decA l).
Proof.
  intros Hinj. induction l as [|a l IH]; [reflexivity|]. simpl.
  destruct (in_dec decB (f a) (map f l)) as [Hin|Hnin];
    destruct (in_dec decA a l) as [Hin'|Hnin']; simpl; auto.
  - exfalso. apply in_map_iff in Hin. destruct Hin as (x & Hx & Hxl).
    apply Hinj in Hx. subst x. contradiction.
  - exfalso. apply Hnin. now apply in_map.
Qed.

(** ** Leaves, depth and paths of a tree *)

Lemma node_paths_dir_cons (k : string) (child : FileTreeNode) (t : FileTree) :
  node_paths (Dir ((k, child) :: t))
  = map (cons k) (node_paths child) ++ node_paths (Dir t).
Proof. reflexivity. Qed.

Lemma leaf_count_dir_cons (k : string) (child : FileTreeNode) (t : FileTree) :
  leaf_count (Dir ((k, child) :: t)) = leaf_count child + leaf_count (Dir t).
Proof. reflexivity. Qed.

Lemma depth_dir_cons (k : string) (child : FileTreeNode) (t : FileTree) :
  depth (Dir ((k, child) :: t)) = Nat.max (S (depth child)) (depth (Dir t)).
Proof. reflexivity. Qed.

Lemma leaf_count_paths (n : FileTreeNode) :
  leaf_count n = List.length (node_paths n).
Proof.
  induction n as [|entries IH] using FileTreeNode_nested_ind; [reflexivity|].
  induction IH as [|[k child] t Hchild _ IHt]; [reflexivity|].
  rewrite leaf_count_dir_cons, node_paths_dir_cons, length_app, length_map.
  simpl in Hchild. now rewrite Hchild, IHt.
Qed.

Lemma node_paths_nonempty (n : FileTreeNode) :
  wf_node n -> node_paths n <> [].
Proof.
  induction n as [|entries IH] using FileTreeNode_nested_ind;
    [discriminate|].
  intros Hwf. inversion Hwf as [|? Hne _ Hall]; subst.
  destruct entries as [|[k child] t]; [contradiction|].
  inversion IH as [|? ? Hchild _]; subst.
  inversion Hall as [|? ? Hwfc _]; subst.
  rewrite node_paths_dir_cons. simpl in Hchild, Hwfc.
  specialize (Hchild Hwfc).
  destruct (node_paths child); [contradiction|discriminate].
Qed.

Lemma list_max_cons_paths (k : string) (ps : list (list string)) :
  ps <> [] ->
  list_max (map (@List.length string) (map (cons k) ps))
  = S (list_max (map (@List.length string) ps)).
Proof.
  induction ps as [|p ps IH]; [contradiction|]. intros _.
  destruct ps as [|p' ps].
  - simpl. now rewrite !Nat.max_0_r.
  - change (list_max (map (@List.length string) (map (cons k) (p :: p' :: ps))))
      with (Nat.max (S (List.length p))
              (list_max (map (@List.length string) (map (cons k) (p' :: ps))))).
    rewrite IH by discriminate.
    change (list_max (map (@List.length string) (p :: p' :: ps)))
      with (Nat.max (List.length p)
              (list_max (map (@List.length string) (p' :: ps)))).
    lia.
Qed.

Lemma depth_dir_paths (t : FileTree) :
  Forall (fun kv => wf_node (snd kv)) t ->
  Forall (fun kv => wf_node (snd kv) ->
            depth (snd kv)
            = list_max (map (@List.length string) (node_paths (snd kv)))) t ->
  depth (Dir t) = list_max (map (@List.length string) (node_paths (Dir t))).
Proof.
  induction t as [|[k child] t IHt]; [reflexivity|].
  intros Hwf IH.
  inversion Hwf as [|? ? Hwfc Hwft]; subst.
  inversion IH as [|? ? Hchild IHrest]; subst. simpl in Hwfc, Hchild.
  rewrite depth_dir_cons, node_paths_dir_cons, map_app, list_max_app.
  rewrite list_max_cons_paths by now apply node_paths_nonempty.
  now rewrite (Hchild Hwfc), (IHt Hwft IHrest).
Qed.

Lemma depth_paths (n : FileTreeNode) :
  wf_node n ->
  depth n = list_max (map (@List.length string) (node_paths n)).
Proof.
  induction n as [|entries IH] using FileTreeNode_nested_ind; [reflexivity|].
  intros Hwf. inversion Hwf; subst. now apply depth_dir_paths.
Qed.

Lemma tree_depth_paths (t : FileTree) :
  wf_tree t ->
  depth (Dir t) = list_max (map (@List.length string) (node_paths (Dir t))).
Proof.
  intros [_ Hall]. apply depth_dir_paths; auto.
  eapply Forall_impl; [|exact Hall]. intros kv _. apply depth_paths.
Qed.

Lemma in_paths_get (t : FileTree) (q : list string) :
  NoDup (keys t) ->
  In q (node_paths (Dir t)) <->
  exists k r v, q = k :: r /\ dict_get t k = Some v /\ In r (node_paths v).
Proof.
  intros Hnd. change (node_paths (Dir t))
    with (flat_map (fun kv => map (cons (fst kv)) (node_paths (snd kv))) t).
  rewrite in_flat_map. split.
  - intros ([k v] & Hin & Hq). simpl in Hq.
    apply in_map_iff in Hq. destruct Hq as (r & <- & Hr).
    exists k, r, v. repeat split; auto. now apply In_dict_get.
  - intros (k & r & v & -> & Hget & Hr).
    exists (k, v). split; [now apply dict_get_In|].
    simpl. now apply in_map.
Qed.

Lemma NoDup_dir_paths (t : FileTree) :
  NoDup (keys t) ->
  Forall (fun kv => NoDup (node_paths (snd kv))) t ->
  NoDup (node_paths (Dir t)).
Proof.
  induction t as [|[k child] t IHt]; [constructor|].
  intros Hnd Hall.
  inversion Hnd as [|? ? Hnotin Hnd']; subst.
  inversion Hall as [|? ? Hchild Hrest]; subst. simpl in Hchild.
  rewrite node_paths_dir_cons. apply NoDup_app. repeat split.
  - apply Finite.Injective_map_NoDup; auto.
    intros x y [= ->]. reflexivity.
  - now apply IHt.
  - intros q Hq Hq'. apply in_map_iff in Hq. destruct Hq as (r & <- & _).
    apply (in_paths_get t _ Hnd') in Hq'.
    destruct Hq' as (k' & r' & v & [= <- <-] & Hget & _).
    apply Hnotin. apply dict_get_In in Hget.
    apply (in_map fst) in Hget. exact Hget.
Qed.

Lemma NoDup_node_paths (n : FileTreeNode) :
  wf_node n -> NoDup (node_paths n).
Proof.
  induction n as [|entries IH] using FileTreeNode_nested_ind.
  - intros _. repeat constructor. simpl. tauto.
  - intros Hwf. inversion Hwf as [|? _ Hnd Hall]; subst.
    apply NoDup_dir_paths; auto.
    rewrite Forall_forall in *. auto.
Qed.

Lemma NoDup_tree_paths (t : FileTree) :
  wf_tree t -> NoDup (node_paths (Dir t)).
Proof.
  intros [Hnd Hall]. apply NoDup_dir_paths; auto.
  eapply Forall_impl; [|exact Hall]. intros kv. apply NoDup_node_paths.
Qed.

(** ** Inserting one path *)

Lemma insert_path_last (t : FileTree) (part : string) :
  insert_path t [part] = Ok (dict_set t part Leaf).
Proof. reflexivity. Qed.

Lemma insert_path_enter (t : FileTree) (part next : string)
  (rest : list string) :
  insert_path t (part :: next :: rest)
  = match dict_get t part with
    | None =>
        sub <- insert_path [] (next :: rest) ;;
        Ok (dict_set t part (Dir sub))
    | Some (Dir d) =>
        sub <- insert_path d (next :: rest) ;;
        Ok (dict_set t part (Dir sub))
    | Some Leaf => Raise TypeError
    end.
Proof. reflexivity. Qed.

Lemma Forall_dict_set {V : Type} (P : string * V -> Prop)
  (d : list (string * V)) (k : string) (v : V) :
  Forall P d -> (forall k', P (k', v)) -> Forall P (dict_set d k v).
Proof.
  intros Hall Hv. induction Hall as [|[k0 w] d Hkw Hd IH]; simpl.
  - constructor; auto.
  - destruct (String.eqb k0 k); constructor; auto.
Qed.

Lemma wf_tree_dict_set (t : FileTree) (k : string) (v : FileTreeNode) :
  wf_tree t -> wf_node v -> wf_tree (dict_set t k v).
Proof.
  intros [Hnd Hall] Hv. split.
  - now apply NoDup_keys_dict_set.
  - apply Forall_dict_set; auto.
Qed.

Lemma wf_tree_nil : wf_tree [].
Proof. split; constructor. Qed.

Lemma wf_node_dir_tree (d : FileTree) : wf_node (Dir d) -> wf_tree d.
Proof. intros H. inversion H; subst. now split. Qed.

Lemma wf_tree_get (t : FileTree) (k : string) (v : FileTreeNode) :
  wf_tree t -> dict_get t k = Some v -> wf_node v.
Proof.
  intros [_ Hall] Hget. apply dict_get_In in Hget.
  rewrite Forall_forall in Hall. exact (Hall _ Hget).
Qed.

(** The paths of a tree after [t[k] = v]: those through the new value, and
    the old ones that do not start with [k]. *)
Lemma paths_dict_set (t : FileTree) (k : string) (v : FileTreeNode)
  (q : list string) :
  NoDup (keys t) ->
  In q (node_paths (Dir (dict_set t k v))) <->
  (exists r, q = k :: r /\ In r (node_paths v))
  \/ (In q (node_paths (Dir t)) /\ forall r, q <> k :: r).
Proof.
  intros Hnd.
  rewrite (in_paths_get _ _ (NoDup_keys_dict_set t k v Hnd)).
  rewrite (in_paths_get _ _ Hnd). split.
  - intros (k' & r & v' & -> & Hget & Hr).
    destruct (string_dec k k') as [<-|Hne].
    + rewrite dict_get_set_same in Hget. injection Hget as <-.
      left. now exists r.
    + rewrite dict_get_set_other in Hget by assumption.
      right. split; [now exists k', r, v'|].
      intros r' [= <- _]. contradiction.
  - intros [(r & -> & Hr) | ((k' & r & v' & -> & Hget & Hr) & Hne)].
    + exists k, r, v. repeat split; auto. apply dict_get_set_same.
    + exists k', r, v'. repeat split; auto.
      rewrite dict_get_set_other; auto.
      intros <-. now apply (Hne r).
Qed.

Lemma extends_cons (k : string) (p q : list string) :
  extends (k :: p) (k :: q) <-> extends p q.
Proof.
  split; intros (ext & Hne & H); exists ext; split; auto.
  - now injection H.
  - simpl. now rewrite H.
Qed.

(** Inserting a path that neither continues a path of the tree nor is
    continued by one succeeds and adds exactly that path. *)
Lemma insert_path_paths (p : list string) :
  forall t : FileTree,
  p <> [] ->
  wf_tree t ->
  (forall q, In q (node_paths (Dir t)) -> ~ extends p q /\ ~ extends q p) ->
  exists t',
    insert_path t p = Ok t'
    /\ wf_tree t'
    /\ forall q, In q (node_paths (Dir t')) <-> q = p \/ In q (node_paths (Dir t)).
Proof.
  induction p as [|k rest IH]; intros t Hne Hwf Hfree; [contradiction|].
  destruct rest as [|next rest].
  - exists (dict_set t k Leaf). split; [reflexivity|].
    split; [apply wf_tree_dict_set; auto; constructor|].
    intros q. rewrite (paths_dict_set _ _ _ _ (proj1 Hwf)). simpl. split.
    + intros [(r & -> & [<-|[]]) | [Hq _]]; auto.
    + intros [-> | Hq].
      * left. exists []. auto.
      * destruct q as [|k' r].
        { apply (in_paths_get _ _ (proj1 Hwf)) in Hq.
          destruct Hq as (? & ? & ? & Hq & _). discriminate. }
        destruct (string_dec k k') as [<-|Hk].
        { destruct r as [|x r]; [left; exists []; auto|].
          destruct (Hfree _ Hq) as [_ Hext]. exfalso. apply Hext.
          exists (x :: r). split; [discriminate|reflexivity]. }
        right. split; auto. intros r' [= <- _]. contradiction.
  - rewrite insert_path_enter.
    destruct (dict_get t k) as [[|d]|] eqn:Hget.
    + exfalso. assert (Hq : In [k] (node_paths (Dir t))).
      { apply (in_paths_get _ _ (proj1 Hwf)). exists k, [], Leaf.
        repeat split; auto. now left. }
      destruct (Hfree _ Hq) as [Hext _]. apply Hext.
      exists (next :: rest). split; [discriminate|reflexivity].
    + pose proof (wf_tree_get _ _ _ Hwf Hget) as Hwfd.
      destruct (IH d) as (sub & Hsub & Hwfsub & Hpaths).
      * discriminate.
      * now apply wf_node_dir_tree.
      * intros q Hq. destruct (Hfree (k :: q)) as [H1 H2].
        { apply (in_paths_get _ _ (proj1 Hwf)). now exists k, q, (Dir d). }
        split; intros H; [apply H1|apply H2]; now apply extends_cons.
      * rewrite Hsub. cbn [bind]. eexists. split; [reflexivity|].
        assert (Hsubne : sub <> []).
        { intros ->. apply (Hpaths (next :: rest)). now left. }
        split.
        { apply wf_tree_dict_set; auto.
          destruct Hwfsub. now constructor. }
        intros q. rewrite (paths_dict_set _ _ _ _ (proj1 Hwf)). split.
        { intros [(r & -> & Hr) | [Hq _]]; auto.
          apply Hpaths in Hr. destruct Hr as [-> | Hr]; auto.
          right. apply (in_paths_get _ _ (proj1 Hwf)). now exists k, r, (Dir d). }
        { intros [-> | Hq].
          - left. exists (next :: rest). split; auto. apply Hpaths. now left.
          - pose proof Hq as Hq'.
            apply (in_paths_get _ _ (proj1 Hwf)) in Hq'.
            destruct Hq' as (k' & r & v & -> & Hget' & Hr).
            destruct (string_dec k k') as [<-|Hk].
            + rewrite Hget in Hget'. injection Hget' as <-.
              left. exists r. split; auto. apply Hpaths. now right.
            + right. split; auto. intros r' [= <- _]. contradiction. }
    + destruct (IH []) as (sub & Hsub & Hwfsub & Hpaths).
      * discriminate.
      * apply wf_tree_nil.
      * intros q [].
      * rewrite Hsub. cbn [bind]. eexists. split; [reflexivity|].
        assert (Hsubne : sub <> []).
        { intros ->. apply (Hpaths (next :: rest)). now left. }
        split.
        { apply wf_tree_dict_set; auto.
          destruct Hwfsub. now constructor. }
        intros q. rewrite (paths_dict_set _ _ _ _ (proj1 Hwf)). split.
        { intros [(r & -> & Hr) | [Hq _]]; auto.
          apply Hpaths in Hr. destruct Hr as [-> | []]; auto. }
        { intros [-> | Hq].
          - left. exists (next :: rest). split; auto. apply Hpaths. now left.
          - right. split; auto. intros r ->.
            apply (in_paths_get _ _ (proj1 Hwf)) in Hq.
            destruct Hq as (k' & r' & v & [= <- <-] & Hget' & _).
            congruence. }
Qed.

(** ** Building the whole tree *)

Lemma starts_with_spec (pre p : list string) :
  starts_with pre p = true <-> exists r, p = pre ++ r.
Proof.
  revert p. induction pre as [|k pre IH]; intros p; simpl.
  - split; [intros _; now exists p|reflexivity].
  - destruct p as [|k' p].
    + split; [discriminate|]. intros [r H]. discriminate.
    + rewrite andb_true_iff, String.eqb_eq, IH. split.
      * intros [-> [r ->]]. now exists r.
      * intros [r [= -> ->]]. split; auto. now exists r.
Qed.

Lemma extendsb_spec (p q : list string) :
  extendsb p q = true <-> extends p q.
Proof.
  unfold extendsb, extends.
  rewrite andb_true_iff, starts_with_spec, Nat.ltb_lt. split.
  - intros [[r ->] Hlen]. exists r. split; auto.
    intros ->. rewrite app_nil_r in Hlen. lia.
  - intros (ext & Hne & ->). split; [now exists ext|].
    rewrite length_app. destruct ext; [contradiction|]. simpl. lia.
Qed.

Lemma prefix_freeb_spec (paths : list (list string)) :
  prefix_freeb paths = true -> prefix_free paths.
Proof.
  unfold prefix_freeb, prefix_free. rewrite forallb_forall.
  intros H p q Hp Hq Hext. specialize (H p Hp).
  rewrite forallb_forall in H. specialize (H q Hq).
  apply extendsb_spec in Hext. rewrite Hext in H. discriminate.
Qed.

Lemma add_file_name (t : FileTree) (s : string) :
  add_file t [("name", PStr s)] = insert_path t (split_slash s).
Proof. reflexivity. Qed.

Lemma add_files_app (t : FileTree) (l1 l2 : list dict) :
  add_files t (l1 ++ l2) = (t' <- add_files t l1 ;; add_files t' l2).
Proof.
  revert t. induction l1 as [|r l1 IH]; intros t; [reflexivity|]. simpl.
  destruct (add_file t r); simpl; auto.
Qed.

Lemma add_files_paths (names : list string) :
  forall t : FileTree,
  wf_tree t ->
  prefix_free (node_paths (Dir t) ++ map split_slash names) ->
  exists t',
    add_files t (names_of names) = Ok t'
    /\ wf_tree t'
    /\ forall q, In q (node_paths (Dir t')) <->
         In q (node_paths (Dir t)) \/ In q (map split_slash names).
Proof.
  induction names as [|s names IH]; intros t Hwf Hfree.
  - exists t. split; [reflexivity|]. split; [assumption|].
    intros q. cbn [map]. split; [now left|]. now intros [H|[]].
  - destruct (insert_path_paths (split_slash s) t) as (t1 & Hins & Hwf1 & Hp1).
    + apply split_slash_nonempty.
    + assumption.
    + intros q Hq. split; apply Hfree; apply in_or_app; simpl; auto.
    + destruct (IH t1 Hwf1) as (t' & Hadd & Hwf' & Hp').
      * intros p q Hp Hq. apply Hfree.
        -- apply in_app_or in Hp. apply in_or_app.
           destruct Hp as [Hp|Hp]; [|simpl; auto].
           apply Hp1 in Hp. destruct Hp as [-> | Hp]; simpl; auto.
        -- apply in_app_or in Hq. apply in_or_app.
           destruct Hq as [Hq|Hq]; [|simpl; auto].
           apply Hp1 in Hq. destruct Hq as [-> | Hq]; simpl; auto.
      * exists t'. split; [|split; auto].
        -- change (names_of (s :: names))
             with ([("name", PStr s)] :: names_of names).
           cbn [add_files]. rewrite add_file_name, Hins. exact Hadd.
        -- intros q. rewrite Hp', Hp1. simpl.
           split; intros H; intuition auto.
Qed.

Lemma list_max_ge (l : list nat) (x : nat) : In x l -> x <= list_max l.
Proof.
  intros Hx. pose proof (proj1 (list_max_le l (list_max l)) (Nat.le_refl _)) as H.
  rewrite Forall_forall in H. now apply H.
Qed.

Lemma list_max_same (l1 l2 : list nat) :
  (forall x, In x l1 <-> In x l2) -> list_max l1 = list_max l2.
Proof.
  intros H. apply Nat.le_antisymm; apply list_max_le, Forall_forall;
    intros x Hx; apply H in Hx; now apply list_max_ge.
Qed.

Lemma list_max_length_same (l1 l2 : list (list string)) :
  (forall x, In x l1 <-> In x l2) ->
  list_max (map (@List.length string) l1)
  = list_max (map (@List.length string) l2).
Proof.
  intros H. apply list_max_same. intros n. rewrite !in_map_iff.
  split; intros (x & Hx & Hin); exists x; split; auto; now apply H.
Qed.

Lemma list_max_app_paths (pre : list string) (ps : list (list string)) :
  ps <> [] \/ pre = [] ->
  list_max (map (@List.length string) (map (app pre) ps))
  = List.length pre + list_max (map (@List.length string) ps).
Proof.
  intros H. induction pre as [|k pre IH].
  - simpl. f_equal. rewrite map_id. reflexivity.
  - destruct H as [H|H]; [|discriminate].
    replace (map (app (k :: pre)) ps) with (map (cons k) (map (app pre) ps))
      by (rewrite map_map; reflexivity).
    rewrite list_max_cons_paths by (destruct ps; [contradiction|discriminate]).
    rewrite IH by auto. reflexivity.
Qed.

(** What [t[k1]...[kn]] holds: its paths are the continuations of
    [k1...kn] in the tree. *)
Lemma walk_paths (pre : list string) :
  forall (t : FileTree) (n : FileTreeNode),
  wf_tree t ->
  walk (Dir t) pre = Some n ->
  (pre = [] \/ wf_node n)
  /\ forall r, In r (node_paths n) <-> In (pre ++ r) (node_paths (Dir t)).
Proof.
  induction pre as [|k pre IH]; intros t n Hwf Hwalk.
  - injection Hwalk as <-. split; [now left|]. reflexivity.
  - cbn [walk] in Hwalk.
    destruct (dict_get t k) as [child|] eqn:Hget; [|discriminate].
    pose proof (wf_tree_get _ _ _ Hwf Hget) as Hwfc.
    assert (Hstep : forall r,
               In (pre ++ r) (node_paths child) <->
               In ((k :: pre) ++ r) (node_paths (Dir t))).
    { intros r. rewrite (in_paths_get _ _ (proj1 Hwf)). split.
      - intros Hr. now exists k, (pre ++ r), child.
      - intros (k' & r' & v & [= <- <-] & Hget' & Hr). congruence. }
    destruct child as [|d].
    + destruct pre; [|discriminate]. injection Hwalk as <-.
      split; [right; constructor|]. intros r. now rewrite <- Hstep.
    + destruct (IH d n (wf_node_dir_tree _ Hwfc) Hwalk) as [Hn Hp].
      split.
      * right. destruct Hn as [-> | Hn]; auto.
        injection Hwalk as <-. exact Hwfc.
      * intros r. now rewrite Hp, <- Hstep.
Qed.

(** C1, as the code has it: when no input path continues another input path
    below its last segment, [generate_file_tree] returns a mapping whose
    leaves are as many as the distinct full paths; its root-to-leaf key
    sequences are exactly the segment lists of the input paths; its depth
    is the largest segment count; and below any key sequence [pre] of the
    mapping the depth is the largest number of segments the input paths
    through [pre] have left. *)
Theorem generate_file_tree_leaves_depth (names : list string) :
  prefix_free (map split_slash names) ->
  exists t,
    generate_file_tree (names_of names) = Ok t
    /\ leaf_count (Dir t) = distinct_count names
    /\ (forall branch,
         In branch (node_paths (Dir t)) <-> In branch (map split_slash names))
    /\ depth (Dir t)
       = list_max (map (@List.length string) (map split_slash names))
    /\ forall pre n,
         walk (Dir t) pre = Some n ->
         List.length pre + depth n
         = list_max (map (@List.length string)
                       (filter (starts_with pre) (map split_slash names))).
Proof.
  intros Hfree.
  destruct (add_files_paths names [] wf_tree_nil Hfree) as (t & Hrun & Hwf & Hp).
  assert (Hpaths : forall q,
             In q (node_paths (Dir t)) <-> In q (map split_slash names)).
  { intros q. rewrite Hp. simpl. tauto. }
  exists t. split; [exact Hrun|]. split; [|split; [exact Hpaths|split]].
  - rewrite leaf_count_paths. unfold distinct_count.
    rewrite <- (nodup_map_inj_length string_dec (list_eq_dec string_dec)
                  split_slash names split_slash_inj).
    apply Permutation_length, NoDup_Permutation.
    + now apply NoDup_tree_paths.
    + apply NoDup_nodup.
    + intros q. now rewrite nodup_In.
  - rewrite (tree_depth_paths t Hwf). now apply list_max_length_same.
  - intros pre n Hwalk.
    destruct (walk_paths pre t n Hwf Hwalk) as [Hn Hcont].
    assert (Hdepth :
             depth n = list_max (map (@List.length string) (node_paths n))).
    { destruct Hn as [-> | Hn]; [|now apply depth_paths].
      injection Hwalk as <-. now apply tree_depth_paths. }
    rewrite Hdepth, <- list_max_app_paths.
    + apply list_max_length_same. intros q.
      rewrite filter_In, in_map_iff, starts_with_spec, <- Hpaths. split.
      * intros (r & <- & Hr). split; [now apply Hcont|now exists r].
      * intros [Hq [r ->]]. exists r. split; auto. now apply Hcont.
    + destruct Hn as [-> | Hn]; [now right|left].
      now apply node_paths_nonempty.
Qed.

Lemma generate_file_tree_leaves_depth_witness :
  exists t,
    generate_file_tree (names_of ["src/main.py"; "src/utils/io.py"; "README.md";
                                  "src/main.py"]) = Ok t
    /\ leaf_count (Dir t) = 3
    /\ depth (Dir t) = 3.
Proof.
  destruct (generate_file_tree_leaves_depth
              ["src/main.py"; "src/utils/io.py"; "README.md"; "src/main.py"])
    as (t & Hrun & Hleaves & _ & Hdepth & _).
  - apply prefix_freeb_spec. vm_compute. reflexivity.
  - exists t. split; [exact Hrun|]. split.
    + rewrite Hleaves. vm_compute. reflexivity.
    + rewrite Hdepth. vm_compute. reflexivity.
Defined.

(** C1 fails when a path continues another: after ["a/b"], the record ["a"]
    replaces the directory by a leaf, and the mapping has one leaf and depth
    one for two distinct paths of up to two segments. *)
Lemma generate_file_tree_overwritten_directory :
  generate_file_tree (names_of ["a/b"; "a"]) = Ok [("a", Leaf)]
  /\ leaf_count (Dir [("a", Leaf)]) <> distinct_count ["a/b"; "a"]
  /\ depth (Dir [("a", Leaf)])
     <> list_max (map (@List.length string) (map split_slash ["a/b"; "a"])).
Proof. vm_compute. repeat split; discriminate. Qed.

(** ** Paths that meet a leaf *)

(** After a path is inserted, following it meets its leaf. *)
Lemma insert_path_hits (p : list string) :
  forall t t' : FileTree,
  p <> [] -> insert_path t p = Ok t' -> hits_leaf t' p = true.
Proof.
  induction p as [|k rest IH]; intros t t' Hne Hins; [contradiction|].
  destruct rest as [|next rest].
  - injection Hins as <-. simpl. now rewrite dict_get_set_same.
  - rewrite insert_path_enter in Hins.
    destruct (dict_get t k) as [[|d]|]; [discriminate| |];
      (destruct (insert_path _ (next :: rest)) as [sub|] eqn:Hsub;
       [|discriminate]);
      injection Hins as <-; cbn [hits_leaf];
      rewrite dict_get_set_same; eapply IH; eauto; discriminate.
Qed.

(** A later insertion never removes a leaf that a path meets. *)
Lemma insert_path_keeps_hits (q : list string) :
  forall (t t' : FileTree) (p : list string),
  insert_path t q = Ok t' -> hits_leaf t p = true -> hits_leaf t' p = true.
Proof.
  induction q as [|k rest IH]; intros t t' p Hins Hhit.
  - injection Hins as <-. exact Hhit.
  - destruct p as [|k' p]; [discriminate|].
    destruct rest as [|next rest].
    + injection Hins as <-. cbn [hits_leaf] in *.
      destruct (string_dec k k') as [<-|Hk].
      * now rewrite dict_get_set_same.
      * now rewrite dict_get_set_other.
    + rewrite insert_path_enter in Hins. cbn [hits_leaf] in *.
      destruct (string_dec k k') as [<-|Hk].
      * destruct (dict_get t k) as [[|d]|]; try discriminate.
        destruct (insert_path d (next :: rest)) as [sub|] eqn:Hsub;
          [|discriminate].
        injection Hins as <-. rewrite dict_get_set_same. eapply IH; eauto.
      * destruct (dict_get t k) as [[|d]|]; [discriminate| |];
          (destruct (insert_path _ (next :: rest)) as [sub|];
           [|discriminate]);
          injection Hins as <-; now rewrite dict_get_set_other.
Qed.

(** Inserting a path that goes on below a leaf fails on [None]. *)
Lemma insert_path_below_leaf (p : list string) :
  forall (t : FileTree) (ext : list string),
  hits_leaf t p = true -> ext <> [] ->
  insert_path t (p ++ ext) = Raise TypeError.
Proof.
  induction p as [|k p IH]; intros t ext Hhit Hext; [discriminate|].
  cbn [hits_leaf] in Hhit.
  assert (Hrest : exists next rest, p ++ ext = next :: rest).
  { destruct p; [destruct ext; [contradiction|]|]; simpl; eauto. }
  destruct Hrest as (next & rest & Hrest).
  change ((k :: p) ++ ext) with (k :: (p ++ ext)).
  rewrite Hrest, insert_path_enter, <- Hrest.
  destruct (dict_get t k) as [[|d]|]; [reflexivity| |discriminate].
  now rewrite (IH d ext Hhit Hext).
Qed.

Lemma add_files_keeps_hits (files : list dict) :
  forall (t t' : FileTree) (p : list string),
  add_files t files = Ok t' -> hits_leaf t p = true -> hits_leaf t' p = true.
Proof.
  induction files as [|r files IH]; intros t t' p Hrun Hhit.
  - now injection Hrun as <-.
  - cbn [add_files] in Hrun.
    destruct (add_file t r) as [t1|] eqn:Hadd; [|discriminate].
    cbn [bind] in Hrun. apply (IH t1 t' p Hrun).
    unfold add_file in Hadd.
    destruct (path_parts_of r) as [parts|]; [|discriminate].
    cbn [bind] in Hadd. eapply insert_path_keeps_hits; eauto.
Qed.

Lemma path_parts_of_name (r : dict) (s : string) :
  dict_get r "name" = Some (PStr s) -> path_parts_of r = Ok (split_slash s).
Proof. intros H. unfold path_parts_of. now rewrite H. Qed.

(** C5: when a record's path continues the full path of an earlier record
    by one segment or more, [generate_file_tree] raises instead of
    returning a tree; the later record itself, once reached, runs into the
    leaf of the earlier path and raises [TypeError]. *)
Theorem generate_file_tree_prefix_raises
  (before between after : list dict) (earlier later : dict)
  (s_earlier s_later : string) :
  dict_get earlier "name" = Some (PStr s_earlier) ->
  dict_get later "name" = Some (PStr s_later) ->
  extends (split_slash s_later) (split_slash s_earlier) ->
  (exists e,
      generate_file_tree (before ++ earlier :: between ++ later :: after)
      = Raise e)
  /\ (forall t,
      generate_file_tree (before ++ earlier :: between) = Ok t ->
      add_file t later = Raise TypeError
      /\ generate_file_tree (before ++ earlier :: between ++ later :: after)
         = Raise TypeError).
Proof.
  intros Hearlier Hlater (ext & Hext & Hsplit).
  assert (Hstep : forall t,
             generate_file_tree (before ++ earlier :: between) = Ok t ->
             add_file t later = Raise TypeError).
  { intros t Hrun. unfold generate_file_tree in Hrun.
    rewrite add_files_app in Hrun.
    destruct (add_files [] before) as [t0|]; [|discriminate].
    cbn [bind add_files] in Hrun.
    destruct (add_file t0 earlier) as [t1|] eqn:Hadd; [|discriminate].
    cbn [bind] in Hrun.
    unfold add_file in Hadd. rewrite (path_parts_of_name _ _ Hearlier) in Hadd.
    cbn [bind] in Hadd.
    apply insert_path_hits in Hadd; [|apply split_slash_nonempty].
    apply (add_files_keeps_hits _ _ _ _ Hrun) in Hadd.
    unfold add_file. rewrite (path_parts_of_name _ _ Hlater). cbn [bind].
    rewrite Hsplit. now apply insert_path_below_leaf. }
  assert (Hwhole :
            generate_file_tree (before ++ earlier :: between ++ later :: after)
            = (t <- generate_file_tree (before ++ earlier :: between) ;;
               t' <- add_file t later ;; add_files t' after)).
  { unfold generate_file_tree.
    replace (before ++ earlier :: between ++ later :: after)
      with ((before ++ earlier :: between) ++ later :: after)
      by (rewrite <- app_assoc; reflexivity).
    now rewrite add_files_app. }
  split.
  - rewrite Hwhole.
    destruct (generate_file_tree (before ++ earlier :: between)) as [t|e] eqn:Hrun.
    + exists TypeError. cbn [bind]. now rewrite (Hstep t).
    + now exists e.
  - intros t Hrun. split; [now apply Hstep|].
    rewrite Hwhole, Hrun. cbn [bind]. now rewrite (Hstep t Hrun).
Qed.

Lemma generate_file_tree_prefix_raises_witness :
  generate_file_tree (names_of ["a"; "a/b"]) = Raise TypeError.
Proof.
  destruct (generate_file_tree_prefix_raises [] [] []
              [("name", PStr "a")] [("name", PStr "a/b")] "a" "a/b")
    as [_ H].
  - reflexivity.
  - reflexivity.
  - exists ["b"]. split; [discriminate|reflexivity].
  - apply (H [("a", Leaf)]). reflexivity.
Defined.

(** C6: a record without ['name'] makes [generate_file_tree] raise: the
    [KeyError] for ['name'] as soon as the records before it are built, or
    the error one of those raised; the records after it play no part and
    no tree is returned. *)
Theorem generate_file_tree_missing_name (before after : list dict) (r : dict) :
  dict_get r "name" = None ->
  generate_file_tree (before ++ r :: after)
  = match generate_file_tree before with
    | Ok _ => Raise (KeyError "name")
    | Raise e => Raise e
    end
  /\ is_ok (generate_file_tree (before ++ r :: after)) = false.
Proof.
  intros Hname.
  assert (Hrun : generate_file_tree (before ++ r :: after)
                 = match generate_file_tree before with
                   | Ok _ => Raise (KeyError "name")
                   | Raise e => Raise e
                   end).
  { unfold generate_file_tree. rewrite add_files_app.
    destruct (add_files [] before) as [t|e]; [|reflexivity].
    cbn [bind add_files]. unfold add_file, path_parts_of.
    now rewrite Hname. }
  split; [exact Hrun|]. rewrite Hrun.
  now destruct (generate_file_tree before).
Qed.

Lemma generate_file_tree_missing_name_witness :
  generate_file_tree
    ([[("name", PStr "src/main.py")]] ++ [("path", PStr "README.md")]
       :: [[("name", PStr "Dockerfile")]])
  = Raise (KeyError "name").
Proof.
  apply (proj1 (generate_file_tree_missing_name
                  [[("name", PStr "src/main.py")]]
                  [[("name", PStr "Dockerfile")]]
                  [("path", PStr "README.md")] eq_refl)).
Defined.

(** ** What one record does to the tree *)


Lemma walk_dir_cons (t : FileTree) (k : string) (ks : list string) :
  walk (Dir t) (k :: ks)
  = match dict_get t k with Some child => walk child ks | None => None end.
Proof. reflexivity. Qed.






(** ** The loop on the store and the recursive insertion agree *)

Lemma dict_set_same_value {V : Type} (d : list (string * V)) (k : string)
  (v : V) :
  dict_get d k = Some v -> dict_set d k v = d.
Proof.
  induction d as [|[k0 w] d IH]; simpl; [discriminate|].
  destruct (String.eqb k0 k) eqn:E.
  - now intros [= ->].
  - intros H. now rewrite IH.
Qed.

Lemma dict_set_twice {V : Type} (d : list (string * V)) (k : string)
  (v v' : V) :
  dict_set (dict_set d k v) k v' = dict_set d k v'.
Proof.
  induction d as [|[k0 w] d IH]; simpl.
  - now rewrite String.eqb_refl.
  - destruct (String.eqb k0 k) eqn:E; simpl; rewrite E; [reflexivity|].
    now rewrite IH.
Qed.

Lemma update_at_current (cursor : list string) :
  forall (tree current : FileTree) (f : FileTree -> FileTree),
  deref tree cursor = Some (Dir current) ->
  update_at tree cursor f = update_at tree cursor (fun _ => f current).
Proof.
  induction cursor as [|k cursor IH]; intros tree current f Hcur.
  - now injection Hcur as <-.
  - cbn [deref update_at] in *.
    destruct (dict_get tree k) as [[|d]|]; auto.
    now rewrite (IH d current f Hcur).
Qed.

Lemma update_at_unchanged (cursor : list string) :
  forall tree current : FileTree,
  deref tree cursor = Some (Dir current) ->
  update_at tree cursor (fun _ => current) = tree.
Proof.
  induction cursor as [|k cursor IH]; intros tree current Hcur.
  - now injection Hcur as <-.
  - cbn [deref update_at] in *.
    destruct (dict_get tree k) as [[|d]|] eqn:Hget; auto.
    rewrite (IH d current Hcur). now apply dict_set_same_value.
Qed.

Lemma deref_update_at (cursor : list string) :
  forall (tree current : FileTree) (f : FileTree -> FileTree),
  deref tree cursor = Some (Dir current) ->
  deref (update_at tree cursor f) cursor = Some (Dir (f current)).
Proof.
  induction cursor as [|k cursor IH]; intros tree current f Hcur.
  - now injection Hcur as <-.
  - cbn [deref update_at] in *.
    destruct (dict_get tree k) as [[|d]|] eqn:Hget; try discriminate.
    + destruct cursor; discriminate.
    + cbn [deref]. rewrite dict_get_set_same. now apply IH.
Qed.

Lemma update_at_twice (cursor : list string) :
  forall (tree current : FileTree) (f g : FileTree -> FileTree),
  deref tree cursor = Some (Dir current) ->
  update_at (update_at tree cursor f) cursor g
  = update_at tree cursor (fun c => g (f c)).
Proof.
  induction cursor as [|k cursor IH]; intros tree current f g Hcur.
  - reflexivity.
  - cbn [deref update_at] in *.
    destruct (dict_get tree k) as [[|d]|] eqn:Hget; try discriminate.
    + destruct cursor; discriminate.
    + rewrite dict_get_set_same, dict_set_twice.
      now rewrite (IH d current f g Hcur).
Qed.

Lemma deref_snoc (cursor : list string) :
  forall (tree current : FileTree) (part : string),
  deref tree cursor = Some (Dir current) ->
  deref tree (cursor ++ [part]) = dict_get current part.
Proof.
  induction cursor as [|k cursor IH]; intros tree current part Hcur.
  - injection Hcur as <-. simpl.
    now destruct (dict_get tree part) as [[|d]|].
  - cbn [deref app] in *.
    destruct (dict_get tree k) as [[|d]|] eqn:Hget; try discriminate.
    + destruct cursor; discriminate.
    + now apply IH.
Qed.

Lemma update_at_snoc (cursor : list string) :
  forall (tree : FileTree) (part : string) (f : FileTree -> FileTree),
  update_at tree (cursor ++ [part]) f
  = update_at tree cursor
      (fun c => match dict_get c part with
                | Some (Dir d) => dict_set c part (Dir (f d))
                | _ => c
                end).
Proof.
  induction cursor as [|k cursor IH]; intros tree part f; [reflexivity|].
  cbn [app update_at].
  destruct (dict_get tree k) as [[|d]|]; auto.
  now rewrite IH.
Qed.

Lemma insert_path_loop_at (path_parts : list string) :
  forall (tree : FileTree) (cursor : list string) (current : FileTree),
  deref tree cursor = Some (Dir current) ->
  insert_path_loop tree cursor path_parts
  = (sub <- insert_path current path_parts ;;
     Ok (update_at tree cursor (fun _ => sub))).
Proof.
  induction path_parts as [|part rest IH]; intros tree cursor current Hcur.
  - cbn [insert_path_loop insert_path bind].
    now rewrite (update_at_unchanged _ _ _ Hcur).
  - destruct rest as [|next rest].
    + cbn [insert_path_loop insert_path bind]. rewrite Hcur.
      now rewrite (update_at_current _ _ _ _ Hcur).
    + rewrite insert_path_enter.
      change (insert_path_loop tree cursor (part :: next :: rest))
        with (match deref tree cursor with
              | Some (Dir current) =>
                  insert_path_loop
                    match dict_get current part with
                    | None =>
                        update_at tree cursor
                          (fun c => dict_set c part (Dir []))
                    | Some _ => tree
                    end (cursor ++ [part]) (next :: rest)
              | _ => Raise TypeError
              end).
      rewrite Hcur.
      destruct (dict_get current part) as [[|d]|] eqn:Hget.
      * cbn [insert_path_loop].
        now rewrite (deref_snoc _ _ _ part Hcur), Hget.
      * rewrite (IH tree (cursor ++ [part]) d)
          by now rewrite (deref_snoc _ _ _ part Hcur).
        destruct (insert_path d (next :: rest)) as [sub|]; [|reflexivity].
        cbn [bind]. f_equal. rewrite update_at_snoc.
        rewrite (update_at_current _ _ _ _ Hcur). now rewrite Hget.
      * pose proof (deref_update_at _ _ _
                      (fun c => dict_set c part (Dir [])) Hcur) as Hcur'.
        rewrite (IH _ (cursor ++ [part]) [])
          by now rewrite (deref_snoc _ _ _ part Hcur'), dict_get_set_same.
        destruct (insert_path [] (next :: rest)) as [sub|]; [|reflexivity].
        cbn [bind]. f_equal. rewrite update_at_snoc.
        rewrite (update_at_twice _ _ _ _ _ Hcur).
        rewrite (update_at_current _ _ _ _ Hcur).
        now rewrite dict_get_set_same, dict_set_twice.
Qed.

(** Started at the root, the loop on the store computes [insert_path]. *)
Lemma insert_path_loop_root (tree : FileTree) (path_parts : list string) :
  insert_path_loop tree [] path_parts = insert_path tree path_parts.
Proof.
  rewrite (insert_path_loop_at path_parts tree [] tree eq_refl).
  now destruct (insert_path tree path_parts).
Qed.

(** * Further properties of the tree builder *)

Lemma insert_path_present (p : list string) :
  forall t : FileTree,
  p <> [] -> walk (Dir t) p = Some Leaf -> insert_path t p = Ok t.
Proof.
  induction p as [|k rest IH]; intros t Hne Hwalk; [contradiction|].
  rewrite walk_dir_cons in Hwalk.
  destruct (dict_get t k) as [child|] eqn:Hget; [|discriminate].
  destruct rest as [|next rest].
  - injection Hwalk as ->. rewrite insert_path_last.
    now rewrite (dict_set_same_value _ _ _ Hget).
  - rewrite insert_path_enter, Hget.
    destruct child as [|d]; [discriminate|].
    rewrite (IH d ltac:(discriminate) Hwalk). cbn [bind].
    now rewrite (dict_set_same_value _ _ _ Hget).
Qed.

Lemma generate_file_tree_snoc (files : list dict) (r : dict) :
  generate_file_tree (files ++ [r])
  = (t <- generate_file_tree files ;; add_file t r).
Proof.
  unfold generate_file_tree. rewrite add_files_app.
  destruct (add_files [] files) as [t|]; [|reflexivity].
  cbn [bind add_files]. now destruct (add_file t r).
Qed.

(** X1: a record whose full path is already a file of the tree built so far
    leaves that tree as it is: a duplicate full path, adjacent or not, is
    harmless. *)
Theorem generate_file_tree_duplicate_path (files : list dict) (r : dict)
  (s : string) (t : FileTree) :
  dict_get r "name" = Some (PStr s) ->
  generate_file_tree files = Ok t ->
  walk (Dir t) (split_slash s) = Some Leaf ->
  generate_file_tree (files ++ [r]) = Ok t.
Proof.
  intros Hname Hrun Hleaf.
  rewrite generate_file_tree_snoc, Hrun. cbn [bind]. unfold add_file.
  rewrite (path_parts_of_name _ _ Hname). cbn [bind].
  apply insert_path_present; auto. apply split_slash_nonempty.
Qed.

Lemma generate_file_tree_duplicate_path_witness :
  generate_file_tree
    ([[("name", PStr "src/main.py")]; [("name", PStr "src/io.py")]]
       ++ [[("name", PStr "src/main.py"); ("format", PStr "TEXT")]])
  = Ok [("src", Dir [("main.py", Leaf); ("io.py", Leaf)])].
Proof.
  apply (generate_file_tree_duplicate_path
           [[("name", PStr "src/main.py")]; [("name", PStr "src/io.py")]]
           [("name", PStr "src/main.py"); ("format", PStr "TEXT")]
           "src/main.py"); reflexivity.
Defined.

Lemma dict_set_nonempty {V : Type} (d : list (string * V)) (k : string) (v : V) :
  dict_set d k v <> [].
Proof.
  destruct d as [|[k0 w] d]; simpl; [discriminate|].
  destruct (String.eqb k0 k); discriminate.
Qed.

Lemma insert_path_nonempty (p : list string) (t t' : FileTree) :
  p <> [] -> insert_path t p = Ok t' -> t' <> [].
Proof.
  intros Hne Hins. destruct p as [|k rest]; [contradiction|].
  destruct rest as [|next rest].
  - injection Hins as <-. apply dict_set_nonempty.
  - rewrite insert_path_enter in Hins.
    destruct (dict_get t k) as [[|d]|]; [discriminate| |];
      (destruct (insert_path _ (next :: rest)) as [sub|]; [|discriminate]);
      injection Hins as <-; apply dict_set_nonempty.
Qed.

Lemma insert_path_wf (p : list string) :
  forall t t' : FileTree,
  wf_tree t -> insert_path t p = Ok t' -> wf_tree t'.
Proof.
  induction p as [|k rest IH]; intros t t' Hwf Hins.
  - now injection Hins as <-.
  - destruct rest as [|next rest].
    + injection Hins as <-. apply wf_tree_dict_set; auto. constructor.
    + rewrite insert_path_enter in Hins.
      assert (Hsub : exists t0 sub,
                 wf_tree t0
                 /\ insert_path t0 (next :: rest) = Ok sub
                 /\ t' = dict_set t k (Dir sub)).
      { destruct (dict_get t k) as [[|d]|] eqn:Hget; [discriminate| |].
        - destruct (insert_path d (next :: rest)) as [sub|] eqn:E;
            [|discriminate].
          injection Hins as <-. exists d, sub. repeat split; auto.
          + exact (proj1 (wf_node_dir_tree _ (wf_tree_get _ _ _ Hwf Hget))).
          + exact (proj2 (wf_node_dir_tree _ (wf_tree_get _ _ _ Hwf Hget))).
        - destruct (insert_path [] (next :: rest)) as [sub|] eqn:E;
            [|discriminate].
          injection Hins as <-. exists [], sub. repeat split; auto;
            constructor. }
      destruct Hsub as (t0 & sub & Hwf0 & Hsub & ->).
      apply wf_tree_dict_set; auto.
      destruct (IH t0 sub Hwf0 Hsub) as [Hnd Hall].
      constructor; auto.
      apply (insert_path_nonempty (next :: rest) t0); auto. discriminate.
Qed.

Lemma add_files_wf (files : list dict) :
  forall t t' : FileTree,
  wf_tree t -> add_files t files = Ok t' -> wf_tree t'.
Proof.
  induction files as [|r files IH]; intros t t' Hwf Hrun.
  - now injection Hrun as <-.
  - cbn [add_files] in Hrun.
    destruct (add_file t r) as [t1|] eqn:Hadd; [|discriminate].
    cbn [bind] in Hrun. apply (IH t1 t'); auto.
    unfold add_file in Hadd.
    destruct (path_parts_of r) as [parts|]; [|discriminate].
    cbn [bind] in Hadd. now apply (insert_path_wf parts t).
Qed.

(** X2: in every tree [generate_file_tree] returns, whatever the records,
    the keys are unique at each level and no directory below the top-level
    mapping is empty. *)
Theorem generate_file_tree_well_formed (files : list dict) (t : FileTree) :
  generate_file_tree files = Ok t ->
  wf_tree t
  /\ forall ks d, walk (Dir t) ks = Some (Dir d) ->
       NoDup (keys d) /\ (ks <> [] -> d <> []).
Proof.
  intros Hrun.
  assert (Hwf : wf_tree t) by exact (add_files_wf files [] t wf_tree_nil Hrun).
  split; [exact Hwf|].
  intros ks d Hwalk.
  destruct (walk_paths ks t (Dir d) Hwf Hwalk) as [Hks _].
  destruct Hks as [-> | Hd].
  - injection Hwalk as <-. split; [exact (proj1 Hwf)|]. contradiction.
  - inversion Hd; subst. split; auto.
Qed.

Lemma generate_file_tree_well_formed_witness :
  wf_tree [("a", Leaf)].
Proof.
  apply (generate_file_tree_well_formed (names_of ["a/b"; "a/c"; "a"])).
  reflexivity.
Defined.

Lemma insert_path_paths_sub (p : list string) :
  forall (t t' : FileTree) (q : list string),
  wf_tree t ->
  insert_path t p = Ok t' ->
  In q (node_paths (Dir t')) ->
  q = p \/ In q (node_paths (Dir t)).
Proof.
  induction p as [|k rest IH]; intros t t' q Hwf Hins Hq.
  - injection Hins as <-. now right.
  - destruct rest as [|next rest].
    + injection Hins as <-.
      apply (paths_dict_set _ _ _ _ (proj1 Hwf)) in Hq.
      destruct Hq as [(r & -> & [<-|[]]) | [Hq _]]; auto.
    + rewrite insert_path_enter in Hins.
      destruct (dict_get t k) as [[|d]|] eqn:Hget; [discriminate| |].
      * destruct (insert_path d (next :: rest)) as [sub|] eqn:E;
          [|discriminate].
        injection Hins as <-.
        apply (paths_dict_set _ _ _ _ (proj1 Hwf)) in Hq.
        destruct Hq as [(r & -> & Hr) | [Hq _]]; auto.
        apply (IH d sub r) in Hr; auto.
        -- destruct Hr as [-> | Hr]; auto. right.
           apply (in_paths_get _ _ (proj1 Hwf)). now exists k, r, (Dir d).
        -- exact (wf_node_dir_tree _ (wf_tree_get _ _ _ Hwf Hget)).
      * destruct (insert_path [] (next :: rest)) as [sub|] eqn:E;
          [|discriminate].
        injection Hins as <-.
        apply (paths_dict_set _ _ _ _ (proj1 Hwf)) in Hq.
        destruct Hq as [(r & -> & Hr) | [Hq _]]; auto.
        apply (IH [] sub r wf_tree_nil E) in Hr.
        destruct Hr as [-> | []]; auto.
Qed.

Lemma add_files_paths_sub (files : list dict) :
  forall (t t' : FileTree) (q : list string),
  wf_tree t ->
  add_files t files = Ok t' ->
  In q (node_paths (Dir t')) ->
  In q (node_paths (Dir t)) \/ In q (map record_path files).
Proof.
  induction files as [|r files IH]; intros t t' q Hwf Hrun Hq.
  - injection Hrun as <-. now left.
  - cbn [add_files] in Hrun.
    destruct (add_file t r) as [t1|] eqn:Hadd; [|discriminate].
    cbn [bind] in Hrun. unfold add_file in Hadd.
    destruct (path_parts_of r) as [parts|] eqn:Hparts; [|discriminate].
    cbn [bind] in Hadd.
    destruct (IH t1 t' q (insert_path_wf _ _ _ Hwf Hadd) Hrun Hq) as [H|H].
    + apply (insert_path_paths_sub parts t t1 q Hwf Hadd) in H.
      destruct H as [-> | H]; [right|now left].
      left. unfold record_path. now rewrite Hparts.
    + right. now right.
Qed.

Lemma add_files_named (files : list dict) :
  forall t t' : FileTree,
  add_files t files = Ok t' ->
  Forall (fun r => exists s, dict_get r "name" = Some (PStr s)) files.
Proof.
  induction files as [|r files IH]; intros t t' Hrun; [constructor|].
  cbn [add_files] in Hrun.
  destruct (add_file t r) as [t1|] eqn:Hadd; [|discriminate].
  cbn [bind] in Hrun. constructor; [|now apply (IH t1 t')].
  unfold add_file, path_parts_of in Hadd.
  destruct (dict_get r "name") as [[]|]; try discriminate. eauto.
Qed.

(** X3: whatever the records, a tree [generate_file_tree] returns holds
    nothing of its own making: every record had a string ['name'], every
    root-to-leaf key sequence is the segment list of some record's path,
    there are at most as many leaves as records, and the tree is no deeper
    than the longest path has segments. *)
Theorem generate_file_tree_sound (files : list dict) (t : FileTree) :
  generate_file_tree files = Ok t ->
  Forall (fun r => exists s, dict_get r "name" = Some (PStr s)) files
  /\ (forall q, In q (node_paths (Dir t)) ->
        exists r s, In r files /\ dict_get r "name" = Some (PStr s)
                    /\ q = split_slash s)
  /\ leaf_count (Dir t) <= List.length files
  /\ depth (Dir t)
     <= list_max (map (@List.length string) (map record_path files)).
Proof.
  intros Hrun.
  pose proof (add_files_named files [] t Hrun) as Hnamed.
  pose proof (add_files_wf files [] t wf_tree_nil Hrun) as Hwf.
  assert (Hsub : incl (node_paths (Dir t)) (map record_path files)).
  { intros q Hq.
    destruct (add_files_paths_sub files [] t q wf_tree_nil Hrun Hq) as [[]|H].
    exact H. }
  split; [exact Hnamed|]. split; [|split].
  - intros q Hq. apply Hsub, in_map_iff in Hq.
    destruct Hq as (r & Hr & Hin). exists r.
    rewrite Forall_forall in Hnamed. destruct (Hnamed r Hin) as [s Hs].
    exists s. repeat split; auto.
    unfold record_path in Hr. now rewrite (path_parts_of_name _ _ Hs) in Hr.
  - rewrite leaf_count_paths, <- (length_map record_path files).
    apply NoDup_incl_length; auto. now apply NoDup_tree_paths.
  - rewrite (tree_depth_paths t Hwf). apply list_max_le, Forall_forall.
    intros n Hn. apply list_max_ge. apply in_map_iff in Hn.
    destruct Hn as (q & <- & Hq). apply in_map. now apply Hsub.
Qed.

Lemma generate_file_tree_sound_witness :
  leaf_count (Dir [("a", Leaf)]) <= 3
  /\ depth (Dir [("a", Leaf)]) <= 2.
Proof.
  destruct (generate_file_tree_sound (names_of ["a/b"; "a/c"; "a"])
              [("a", Leaf)] eq_refl) as (_ & _ & Hleaves & Hdepth).
  split; [exact Hleaves|exact Hdepth].
Defined.

Lemma add_files_same_names (files1 : list dict) :
  forall (files2 : list dict) (t : FileTree),
  map (fun r => dict_get r "name") files1
  = map (fun r => dict_get r "name") files2 ->
  add_files t files1 = add_files t files2.
Proof.
  induction files1 as [|r1 files1 IH]; intros [|r2 files2] t Hnames;
    try discriminate; [reflexivity|].
  injection Hnames as Hname Hrest. cbn [add_files].
  assert (Hadd : add_file t r1 = add_file t r2).
  { unfold add_file, path_parts_of. now rewrite Hname. }
  rewrite Hadd. destruct (add_file t r2) as [t1|]; [|reflexivity].
  cbn [bind]. now apply IH.
Qed.

(** X4: the outcome depends on the records through their ['name'] entries
    only: two lists of records that agree on ['name'], position by
    position, give the same tree or the same error, whatever else the
    records hold. *)
Theorem generate_file_tree_names_only (files1 files2 : list dict) :
  map (fun r => dict_get r "name") files1
  = map (fun r => dict_get r "name") files2 ->
  generate_file_tree files1 = generate_file_tree files2.
Proof. intros H. now apply add_files_same_names. Qed.

Lemma generate_file_tree_names_only_witness :
  generate_file_tree
    [[("name", PStr "src/main.py"); ("format", PStr "TEXT");
      ("content", PStr "print(1)")];
     [("format", PStr "TEXT")]]
  = generate_file_tree [[("name", PStr "src/main.py")]; []].
Proof.
  apply generate_file_tree_names_only. reflexivity.
Defined.

(** X5: for paths none of which continues another, the order of the records
    does not matter for what the tree holds: any permutation of the paths
    builds a tree with the same root-to-leaf key sequences, the same number
    of leaves and the same depth (the order of sibling keys may differ). *)
Theorem generate_file_tree_order (names names' : list string) :
  Permutation names names' ->
  prefix_free (map split_slash names) ->
  exists t t',
    generate_file_tree (names_of names) = Ok t
    /\ generate_file_tree (names_of names') = Ok t'
    /\ (forall q, In q (node_paths (Dir t)) <-> In q (node_paths (Dir t')))
    /\ leaf_count (Dir t) = leaf_count (Dir t')
    /\ depth (Dir t) = depth (Dir t').
Proof.
  intros Hperm Hfree.
  assert (Hsame : forall q,
             In q (map split_slash names) <-> In q (map split_slash names')).
  { intros q. split; apply Permutation_in; [|symmetry];
      now apply Permutation_map. }
  assert (Hfree' : prefix_free (map split_slash names')).
  { intros p q Hp Hq. apply Hfree; now apply Hsame. }
  destruct (add_files_paths names [] wf_tree_nil Hfree) as (t & Hrun & Hwf & Hp).
  destruct (add_files_paths names' [] wf_tree_nil Hfree')
    as (t' & Hrun' & Hwf' & Hp').
  assert (Hpaths : forall q,
             In q (node_paths (Dir t)) <-> In q (node_paths (Dir t'))).
  { intros q. rewrite Hp, Hp', Hsame. reflexivity. }
  exists t, t'. split; [exact Hrun|]. split; [exact Hrun'|].
  split; [exact Hpaths|]. split.
  - rewrite !leaf_count_paths. apply Permutation_length, NoDup_Permutation;
      auto using NoDup_tree_paths.
  - rewrite (tree_depth_paths t Hwf), (tree_depth_paths t' Hwf').
    now apply list_max_length_same.
Qed.

Lemma generate_file_tree_order_witness :
  exists t t',
    generate_file_tree (names_of ["a/b"; "c"; "a/d"]) = Ok t
    /\ generate_file_tree (names_of ["c"; "a/d"; "a/b"]) = Ok t'
    /\ leaf_count (Dir t) = leaf_count (Dir t').
Proof.
  destruct (generate_file_tree_order ["a/b"; "c"; "a/d"] ["c"; "a/d"; "a/b"])
    as (t & t' & H1 & H2 & _ & H3 & _).
  - apply Permutation_cons_app with (l1 := ["c"; "a/d"]) (l2 := []).
    rewrite app_nil_r. apply Permutation_refl.
  - apply prefix_freeb_spec. vm_compute. reflexivity.
  - now exists t, t'.
Defined.

(** * Further properties of the identifier resolver and the fetchers *)

(** X6: [get_actor_id] returns a value exactly when the lookup finds a
    record whose ['id'] is truthy, and then returns that ['id']: it never
    returns [None], an empty string or another falsy id; an error of the
    lookup itself is passed on unchanged. *)
Theorem get_actor_id_ok_iff (apify_client : ApifyClient) (actor_name : string) :
  (forall v,
      get_actor_id apify_client actor_name = Ok v <->
      exists a,
        actor_get apify_client (PStr actor_name) = Ok (Some a)
        /\ dict_get a "id" = Some v
        /\ truthy v = true)
  /\ (forall e,
      actor_get apify_client (PStr actor_name) = Raise e ->
      get_actor_id apify_client actor_name = Raise e).
Proof.
  split.
  - intros v. unfold get_actor_id. split.
    + destruct (actor_get apify_client (PStr actor_name)) as [[a|]|];
        try discriminate. cbn [bind of_optional].
      destruct (negb (truthy (PDict a))); [discriminate|].
      unfold py_get. cbv zeta. destruct (dict_get a "id") as [w|] eqn:Hid;
        [|cbn [truthy negb]; discriminate].
      destruct (truthy w) eqn:Hw; cbn [negb]; [|discriminate].
      intros [= <-]. now exists a.
    + intros (a & -> & Hid & Hv). cbn [bind of_optional].
      destruct a as [|kv a]; [discriminate|]. cbn [truthy negb].
      unfold py_get. now rewrite Hid, Hv.
  - intros e He. unfold get_actor_id. now rewrite He.
Qed.

Lemma get_actor_id_ok_iff_witness :
  get_actor_id (sample_client (Some [("name", PStr "web-scraper");
                                     ("id", PStr "abc")]) [])
    "apify/web-scraper"
  = Ok (PStr "abc").
Proof.
  apply (proj1 (get_actor_id_ok_iff _ _)).
  eexists. repeat split; reflexivity.
Defined.

(** X7: [get_apify_token] returns the value of [APIFY_TOKEN] exactly when
    the variable is set to a non-empty string; unset or empty, it raises
    the one "not set" [ValueError]. *)
Theorem get_apify_token_ok_iff (getenv : string -> option string) :
  (forall token,
      get_apify_token getenv = Ok token <->
      getenv "APIFY_TOKEN" = Some token /\ token <> "")
  /\ (forall e,
      get_apify_token getenv = Raise e ->
      e = ValueError "APIFY_TOKEN environment variable is not set"
      /\ (getenv "APIFY_TOKEN" = None \/ getenv "APIFY_TOKEN" = Some "")).
Proof.
  unfold get_apify_token. split.
  - intros token. destruct (getenv "APIFY_TOKEN") as [tok|].
    + cbn [truthy]. destruct (String.eqb tok "") eqn:E; cbn [negb].
      * apply String.eqb_eq in E. subst tok. split; [discriminate|].
        intros [[= <-] Hne]. contradiction.
      * apply String.eqb_neq in E. split.
        -- intros [= <-]. now split.
        -- intros [[= <-] _]. reflexivity.
    + split; [discriminate|]. intros [H _]. discriminate.
  - intros e. destruct (getenv "APIFY_TOKEN") as [tok|].
    + cbn [truthy]. destruct (String.eqb tok "") eqn:E; cbn [negb];
        [|discriminate].
      apply String.eqb_eq in E. subst tok. intros [= <-]. auto.
    + intros [= <-]. auto.
Qed.

Lemma get_apify_token_ok_iff_witness :
  get_apify_token (fun _ => Some "")
  = Raise (ValueError "APIFY_TOKEN environment variable is not set")
  /\ get_apify_token sample_getenv = Ok "apify_api_token".
Proof.
  split.
  - destruct (get_apify_token (fun _ => Some "")) as [token|e] eqn:E.
    + apply (proj1 (get_apify_token_ok_iff _)) in E.
      destruct E as [[= <-] Hne]. now destruct Hne.
    + apply (proj2 (get_apify_token_ok_iff _)) in E. destruct E as [-> _].
      reflexivity.
  - apply (proj1 (get_apify_token_ok_iff sample_getenv)).
    split; [reflexivity|discriminate].
Defined.

Lemma find_first_latest (before after : list dict) (version : dict) :
  Forall (fun v => dict_get v "buildTag" <> Some (PStr "latest")) before ->
  dict_get version "buildTag" = Some (PStr "latest") ->
  find is_latest (before ++ version :: after) = Some version.
Proof.
  intros Hbefore Hlatest. induction Hbefore as [|v before Hv _ IH]; simpl.
  - now rewrite (proj2 (is_latest_spec version) Hlatest).
  - destruct (is_latest v) eqn:E; [|exact IH].
    apply is_latest_spec in E. contradiction.
Qed.

Lemma get_actor_source_files_at (apify_client : ApifyClient)
  (actor_name : string) (actor_id : pyval) (versions : list dict)
  (version : dict) :
  get_actor_id apify_client actor_name = Ok actor_id ->
  versions_list apify_client actor_id = Ok versions ->
  find is_latest versions = Some version ->
  get_actor_source_files apify_client actor_name
  = (items <- py_iter (py_get version "sourceFiles") ;;
     filter_raising is_text_file items).
Proof.
  intros Hid Hvs Hfind. unfold get_actor_source_files.
  rewrite Hid. cbn [bind]. rewrite Hvs. cbn [bind]. rewrite Hfind.
  cbn [of_optional]. now rewrite (find_some_latest _ _ Hfind).
Qed.

(** X8: the source files come from the first version tagged ['latest'] in
    the order the versions are listed; the versions after it, tagged
    ['latest'] or not, have no part in the result. *)
Theorem get_actor_source_files_first_latest (apify_client : ApifyClient)
  (actor_name : string) (actor_id : pyval)
  (before after : list dict) (version : dict) :
  get_actor_id apify_client actor_name = Ok actor_id ->
  versions_list apify_client actor_id = Ok (before ++ version :: after) ->
  Forall (fun v => dict_get v "buildTag" <> Some (PStr "latest")) before ->
  dict_get version "buildTag" = Some (PStr "latest") ->
  get_actor_source_files apify_client actor_name
  = (items <- py_iter (py_get version "sourceFiles") ;;
     filter_raising is_text_file items).
Proof.
  intros Hid Hvs Hbefore Hlatest.
  apply (get_actor_source_files_at _ _ _ _ _ Hid Hvs).
  now apply find_first_latest.
Qed.

Lemma get_actor_source_files_first_latest_witness :
  get_actor_source_files
    (sample_client (Some [("id", PStr "abc")])
       ([[("buildTag", PStr "beta")]]
          ++ [("buildTag", PStr "latest"); ("sourceFiles", PList [])]
          :: [[("buildTag", PStr "latest");
               ("sourceFiles", PList sample_source_files)]]))
    "apify/web-scraper"
  = Ok [].
Proof.
  apply (get_actor_source_files_first_latest _ _ (PStr "abc")
           [[("buildTag", PStr "beta")]]
           [[("buildTag", PStr "latest");
             ("sourceFiles", PList sample_source_files)]]
           [("buildTag", PStr "latest"); ("sourceFiles", PList [])]).
  - reflexivity.
  - reflexivity.
  - constructor; [discriminate|constructor].
  - reflexivity.
Defined.

(** X9: when the version tagged ['latest'] has no ['sourceFiles'] (the key
    is absent or holds [None]), [get_actor_source_files] raises a
    [TypeError] instead of returning an empty list. *)
Theorem get_actor_source_files_no_source_files (apify_client : ApifyClient)
  (actor_name : string) (actor_id : pyval)
  (before after : list dict) (version : dict) :
  get_actor_id apify_client actor_name = Ok actor_id ->
  versions_list apify_client actor_id = Ok (before ++ version :: after) ->
  Forall (fun v => dict_get v "buildTag" <> Some (PStr "latest")) before ->
  dict_get version "buildTag" = Some (PStr "latest") ->
  dict_get version "sourceFiles" = None
  \/ dict_get version "sourceFiles" = Some PNone ->
  get_actor_source_files apify_client actor_name = Raise TypeError.
Proof.
  intros Hid Hvs Hbefore Hlatest Hsrc.
  rewrite (get_actor_source_files_at _ _ _ _ version Hid Hvs)
    by now apply find_first_latest.
  unfold py_get. now destruct Hsrc as [-> | ->].
Qed.

Lemma get_actor_source_files_no_source_files_witness :
  get_actor_source_files
    (sample_client (Some [("id", PStr "abc")])
       ([] ++ [("buildTag", PStr "latest");
               ("gitRepoUrl", PStr "https://github.com/apify/web-scraper")]
          :: []))
    "apify/web-scraper"
  = Raise TypeError.
Proof.
  apply (get_actor_source_files_no_source_files _ _ (PStr "abc") [] []
           [("buildTag", PStr "latest");
            ("gitRepoUrl", PStr "https://github.com/apify/web-scraper")]).
  - reflexivity.
  - reflexivity.
  - constructor.
  - reflexivity.
  - left. reflexivity.
Defined.

Section BuildFacts.

Variable py_str : pyval -> string.
Variable http_get_json : string -> result pyval.
Variable apify_client : ApifyClient.

Local Abbreviation latest_build :=
  (get_actor_latest_build py_str http_get_json apify_client).

Local Abbreviation github_urls :=
  (get_actor_github_urls py_str http_get_json apify_client).

Lemma get_actor_id_of_str (actor_name : string) :
  get_actor_id_of py_str apify_client (PStr actor_name)
  = get_actor_id apify_client actor_name.
Proof. reflexivity. Qed.

(** X10: [get_actor_latest_build] returns [data] exactly when the name
    resolves to an id, the default-build endpoint of that id answers with
    an object, and the object's ['data'] is [data] and not [None]; a
    ['data'] that is empty or otherwise falsy is returned as it is. *)
Theorem get_actor_latest_build_ok_iff (actor_name data : pyval) :
  latest_build actor_name = Ok data <->
  exists actor_obj_id d,
    get_actor_id_of py_str apify_client actor_name = Ok actor_obj_id
    /\ http_get_json (APIFY_API_ENDPOINT_GET_DEFAULT_BUILD py_str actor_obj_id)
       = Ok (PDict d)
    /\ dict_get d "data" = Some data
    /\ data <> PNone.
Proof.
  unfold get_actor_latest_build. split.
  - destruct (get_actor_id_of py_str apify_client actor_name) as [id|];
      [|discriminate]. cbn [bind].
    destruct (http_get_json _) as [build|] eqn:Hhttp; [|discriminate].
    cbn [bind].
    destruct build as [| | | | |d|]; try discriminate.
    unfold py_get. destruct (dict_get d "data") as [v|] eqn:Hd;
      [|discriminate].
    intros H. exists id, d.
    destruct v; try discriminate; injection H as <-;
      repeat split; auto; discriminate.
  - intros (id & d & -> & Hhttp & Hd & Hne). cbn [bind].
    rewrite Hhttp. cbn [bind]. unfold py_get. rewrite Hd.
    destruct data; auto. contradiction.
Qed.

(** X11: once the name is resolved, a response that is not an object makes
    [get_actor_latest_build] raise [TypeError]; an object whose ['data'] is
    absent or [None] makes it raise a [ValueError] that names the actor as
    it was passed in; an error of the request or of the decoding is passed
    on unchanged. *)
Theorem get_actor_latest_build_failures (actor_name actor_obj_id : pyval) :
  get_actor_id_of py_str apify_client actor_name = Ok actor_obj_id ->
  (forall body,
      http_get_json (APIFY_API_ENDPOINT_GET_DEFAULT_BUILD py_str actor_obj_id)
      = Ok body ->
      ((forall d, body <> PDict d) -> latest_build actor_name = Raise TypeError)
      /\ (forall d, body = PDict d ->
            dict_get d "data" = None \/ dict_get d "data" = Some PNone ->
            exists msg,
              latest_build actor_name = Raise (ValueError msg)
              /\ mentions msg (py_format py_str actor_name)))
  /\ (forall e,
      http_get_json (APIFY_API_ENDPOINT_GET_DEFAULT_BUILD py_str actor_obj_id)
      = Raise e ->
      latest_build actor_name = Raise e).
Proof.
  intros Hid. unfold get_actor_latest_build. rewrite Hid. cbn [bind]. split.
  - intros body Hhttp. rewrite Hhttp. cbn [bind]. split.
    + intros Hnot. destruct body; try reflexivity.
      now destruct (Hnot d).
    + intros d -> Hdata. eexists. split.
      * unfold py_get. destruct Hdata as [-> | ->]; reflexivity.
      * apply mentions_middle.
  - intros e Hhttp. now rewrite Hhttp.
Qed.

(** X12: every URL [get_actor_github_urls] returns is truthy (no [None], no
    empty string); the list is the ['gitRepoUrl'] of the latest build's
    ['actVersion'], when truthy, followed by the truthy ['gitRepoUrl'] of
    the versions in the order they are listed, duplicates included, so it
    has at most one element more than there are versions. *)
Theorem get_actor_github_urls_shape (actor_name : string) (urls : list pyval) :
  github_urls actor_name = Ok urls ->
  Forall (fun u => truthy u = true) urls
  /\ exists actor_id build url versions,
      get_actor_id apify_client actor_name = Ok actor_id
      /\ latest_build actor_id = Ok build
      /\ build_git_repo_url build = Ok url
      /\ versions_list apify_client actor_id = Ok versions
      /\ urls = (if truthy url then [url] else [])
                ++ filter truthy
                     (map (fun version => py_get version "gitRepoUrl") versions)
      /\ List.length urls <= S (List.length versions).
Proof.
  unfold get_actor_github_urls.
  destruct (get_actor_id apify_client actor_name) as [actor_id|] eqn:Hid;
    [|discriminate]. cbn [bind].
  destruct (get_actor_latest_build _ _ _ actor_id) as [build|] eqn:Hbuild;
    [|discriminate]. cbn [bind].
  destruct (build_git_repo_url build) as [url|] eqn:Hurl; [|discriminate].
  cbn [bind].
  destruct (versions_list apify_client actor_id) as [versions|] eqn:Hvs;
    [|discriminate]. cbn [bind].
  intros [= <-]. split.
  - apply Forall_app. split.
    + destruct (truthy url) eqn:Hu; constructor; auto.
    + apply Forall_forall. intros u Hu. now apply filter_In in Hu.
  - exists actor_id, build, url, versions. repeat split; auto.
    rewrite length_app.
    pose proof (filter_length_le truthy
                  (map (fun version => py_get version "gitRepoUrl") versions))
      as Hle.
    rewrite length_map in Hle.
    destruct (truthy url); simpl; lia.
Qed.

(** X13: [get_actor_github_urls] resolves the actor twice: the id found for
    the name is passed on as a name and looked up again.  When that second
    lookup finds nothing, the call fails with the not-found error naming
    the id, although the name itself resolved. *)
Theorem get_actor_github_urls_second_lookup (actor_name actor_id : string) :
  get_actor_id apify_client actor_name = Ok (PStr actor_id) ->
  actor_get apify_client (PStr actor_id) = Ok None ->
  github_urls actor_name
  = Raise (ValueError ("Actor " ++ actor_id ++ " not found.")%string).
Proof.
  intros Hid Hsecond. unfold get_actor_github_urls, get_actor_latest_build.
  rewrite Hid. cbn [bind]. rewrite get_actor_id_of_str.
  now rewrite (get_actor_id_absent _ _ Hsecond).
Qed.

End BuildFacts.

Lemma get_actor_latest_build_ok_iff_witness :
  get_actor_latest_build sample_py_str
    (sample_http (PDict [("data", PDict [])]))
    (sample_client (Some [("id", PStr "abc")]) [])
    (PStr "apify/web-scraper")
  = Ok (PDict []).
Proof.
  apply get_actor_latest_build_ok_iff.
  exists (PStr "abc"), [("data", PDict [])].
  repeat split; try reflexivity. discriminate.
Defined.

Lemma get_actor_latest_build_failures_witness :
  get_actor_latest_build sample_py_str
    (sample_http (PList []))
    (sample_client (Some [("id", PStr "abc")]) [])
    (PStr "apify/web-scraper")
  = Raise TypeError
  /\ get_actor_latest_build sample_py_str
       (sample_http (PDict [("error", PStr "not found")]))
       (sample_client (Some [("id", PStr "abc")]) [])
       (PStr "apify/web-scraper")
     = Raise (ValueError
                "Failed to get the latest build data of the Actor apify/web-scraper.").
Proof.
  split.
  - apply (proj1 (proj1 (get_actor_latest_build_failures sample_py_str
                           (sample_http (PList []))
                           (sample_client (Some [("id", PStr "abc")]) [])
                           (PStr "apify/web-scraper") (PStr "abc") eq_refl)
                    (PList []) eq_refl)).
    discriminate.
  - destruct (proj2 (proj1 (get_actor_latest_build_failures sample_py_str
                              (sample_http (PDict [("error", PStr "not found")]))
                              (sample_client (Some [("id", PStr "abc")]) [])
                              (PStr "apify/web-scraper") (PStr "abc") eq_refl)
                       (PDict [("error", PStr "not found")]) eq_refl)
                [("error", PStr "not found")] eq_refl (or_introl eq_refl))
      as (msg & Hrun & _).
    rewrite Hrun. revert Hrun. vm_compute. intros [= <-]. reflexivity.
Defined.

Lemma get_actor_github_urls_shape_witness :
  Forall (fun u => truthy u = true)
    [PStr "https://github.com/apify/web-scraper";
     PStr "https://github.com/apify/web-scraper"].
Proof.
  apply (proj1 (get_actor_github_urls_shape sample_py_str
                  (sample_http sample_build)
                  (sample_client (Some [("id", PStr "abc")])
                     sample_repo_versions)
                  "apify/web-scraper" _ eq_refl)).
Defined.


Lemma get_actor_github_urls_second_lookup_witness :
  get_actor_github_urls sample_py_str (sample_http sample_build)
    (sample_client_by_name "apify/web-scraper" [("id", PStr "abc")])
    "apify/web-scraper"
  = Raise (ValueError "Actor abc not found.").
Proof.
  apply (get_actor_github_urls_second_lookup sample_py_str
           (sample_http sample_build)
           (sample_client_by_name "apify/web-scraper" [("id", PStr "abc")])
           "apify/web-scraper" "abc"); reflexivity.
Defined.

(** * Further properties of the tools *)

Lemma string_append_assoc (a b c : string) :
  ((a ++ b) ++ c)%string = (a ++ b ++ c)%string.
Proof. induction a as [|x a IH]; simpl; [reflexivity|now rewrite IH]. Qed.

Lemma search_failure_message (search cause_text : string) :
  mentions ("Failed to search for Actors related to '" ++ search
              ++ "': " ++ cause_text)%string search
  /\ exists pre,
      ("Failed to search for Actors related to '" ++ search
         ++ "': " ++ cause_text)%string
      = (pre ++ cause_text)%string.
Proof.
  split.
  - exists "Failed to search for Actors related to '",
      ("': " ++ cause_text)%string.
    reflexivity.
  - exists ("Failed to search for Actors related to '" ++ search ++ "': ")%string.
    now rewrite !string_append_assoc.
Qed.

(** X14: whatever goes wrong in [_run] before the results are validated
    comes out as a [ValueError] built from that very error: when the
    credential is missing, or when the store search raises [cause], [_run]
    raises the [ValueError] whose message is "Failed to search for Actors
    related to '<search>': " followed by the text of [cause]; the message
    names the search string and ends with that text.  When the search
    succeeds, the outcome is the validation of its results, so any other
    error is one of the validation.  Without a credential the outcome does
    not depend on the client: the store is not searched. *)
Theorem search_run_wraps_errors (getenv : string -> option string)
  (connect : string -> ApifyClient) (ActorStoreList : Type)
  (model_validate : list dict -> result ActorStoreList)
  (exn_str : exn -> string) (search : string) (limit offset : Z) :
  (forall cause,
      get_apify_token getenv = Raise cause ->
      forall connect',
        SearchRelatedActorsTool_run getenv connect' ActorStoreList
          model_validate exn_str search limit offset
        = Raise (ValueError ("Failed to search for Actors related to '"
                               ++ search ++ "': " ++ exn_str cause)%string))
  /\ (forall token,
      get_apify_token getenv = Ok token ->
      (forall cause,
          store_list (connect token) limit offset search = Raise cause ->
          SearchRelatedActorsTool_run getenv connect ActorStoreList
            model_validate exn_str search limit offset
          = Raise (ValueError ("Failed to search for Actors related to '"
                                 ++ search ++ "': " ++ exn_str cause)%string))
      /\ (forall search_results,
          store_list (connect token) limit offset search = Ok search_results ->
          SearchRelatedActorsTool_run getenv connect ActorStoreList
            model_validate exn_str search limit offset
          = model_validate search_results))
  /\ (forall e,
      SearchRelatedActorsTool_run getenv connect ActorStoreList model_validate
        exn_str search limit offset = Raise e ->
      (exists cause,
          (get_apify_token getenv = Raise cause
           \/ exists token,
               get_apify_token getenv = Ok token
               /\ store_list (connect token) limit offset search = Raise cause)
          /\ e = ValueError ("Failed to search for Actors related to '" ++ search
                               ++ "': " ++ exn_str cause)%string)
      \/ exists token search_results,
          get_apify_token getenv = Ok token
          /\ store_list (connect token) limit offset search = Ok search_results
          /\ model_validate search_results = Raise e)
  /\ (forall cause,
      mentions ("Failed to search for Actors related to '" ++ search
                  ++ "': " ++ exn_str cause)%string search
      /\ exists pre,
          ("Failed to search for Actors related to '" ++ search
             ++ "': " ++ exn_str cause)%string
          = (pre ++ exn_str cause)%string).
Proof.
  unfold SearchRelatedActorsTool_run. split; [|split; [|split]].
  - intros cause Htoken connect'. rewrite Htoken. reflexivity.
  - intros token Htoken. rewrite Htoken. cbn [bind]. split.
    + intros cause ->. reflexivity.
    + intros search_results ->. reflexivity.
  - intros e.
    destruct (get_apify_token getenv) as [token|cause] eqn:Htoken; cbn [bind].
    + destruct (store_list (connect token) limit offset search)
        as [search_results|cause] eqn:Hstore.
      * intros Hval. right. now exists token, search_results.
      * intros [= <-]. left. exists cause. split; [|reflexivity].
        right. now exists token.
    + intros [= <-]. left. exists cause. split; [now left|reflexivity].
  - intros cause. apply search_failure_message.
Qed.

Lemma search_run_wraps_errors_witness :
  SearchRelatedActorsTool_run sample_getenv (fun _ => sample_client_down)
    (list dict) sample_store_validate sample_exn_str "scraper" 10 0
  = Raise (ValueError
             "Failed to search for Actors related to 'scraper': 503 Service Unavailable")
  /\ SearchRelatedActorsTool_run (fun _ => None) (fun _ => sample_client_down)
       (list dict) sample_store_validate sample_exn_str "scraper" 10 0
     = Raise (ValueError
                "Failed to search for Actors related to 'scraper': APIFY_TOKEN environment variable is not set").
Proof.
  split.
  - apply (proj1 (proj1 (proj2 (search_run_wraps_errors sample_getenv
                                  (fun _ => sample_client_down) (list dict)
                                  sample_store_validate sample_exn_str
                                  "scraper" 10 0))
                    "apify_api_token" eq_refl)
             (RemoteError "503 Service Unavailable") eq_refl).
  - apply (proj1 (search_run_wraps_errors (fun _ => None)
                    (fun _ => sample_client_down) (list dict)
                    sample_store_validate sample_exn_str "scraper" 10 0)
             (ValueError "APIFY_TOKEN environment variable is not set")
             eq_refl).
Defined.

Lemma pricing_loop_prefix (utc_now : nat -> Z) (now : Z) (pre : list dict) :
  (forall k, utc_now k = now) ->
  Forall (starts_by now) pre ->
  forall k cur rest,
    pricing_loop utc_now k cur (map PDict pre ++ rest)
    = pricing_loop utc_now (k + List.length pre)
        (last (map PDict pre) cur) rest.
Proof.
  intros Hnow Hpre. induction Hpre as [|e pre (t & Ht & Hle) _ IH];
    intros k cur rest.
  - simpl. now rewrite Nat.add_0_r.
  - cbn [map app]. rewrite (pricing_loop_step _ _ _ _ _ _ Ht), Hnow.
    replace (now <? t)%Z with false by (symmetry; apply Z.ltb_ge; lia).
    rewrite IH, last_cons_default. cbn [List.length].
    now rewrite Nat.add_succ_r.
Qed.

Lemma pricing_loop_result (utc_now : nat -> Z) (now : Z) :
  (forall k, utc_now k = now) ->
  forall items k cur v,
    pricing_loop utc_now k cur items = Ok v ->
    v = cur
    \/ exists e, v = PDict e /\ In (PDict e) items /\ starts_by now e.
Proof.
  intros Hnow items. induction items as [|x items IH]; intros k cur v Hrun.
  - injection Hrun as <-. now left.
  - cbn [pricing_loop] in Hrun. destruct x as [| | | | |d|]; try discriminate.
    destruct (py_get d "startedAt") as [| | | | | |t] eqn:Hget;
      try discriminate.
    rewrite Hnow in Hrun. destruct (now <? t)%Z eqn:E.
    + injection Hrun as <-. now left.
    + apply Z.ltb_ge in E. right.
      destruct (IH _ _ _ Hrun) as [-> | (e & -> & Hin & Hby)].
      * exists d. repeat split; [now left|]. exists t. split; auto.
        unfold started_at. unfold py_get in Hget.
        destruct (dict_get d "startedAt") as [[]|]; try discriminate.
        now injection Hget as ->.
      * exists e. repeat split; auto. now right.
Qed.

(** X15: the pricing tool checks the credential first and the actor second:
    the error of a missing credential comes out as it is, whatever the
    client would answer; with a credential, a lookup that finds nothing or
    an empty record raises the not-found [ValueError] naming the id, and an
    error of the lookup is passed on unchanged. *)
Theorem pricing_tool_lookup_failures (getenv : string -> option string)
  (connect : string -> ApifyClient) (utc_now : nat -> Z) (PricingInfo : Type)
  (model_validate : pyval -> result PricingInfo) (actor_id : string) :
  (forall e,
      get_apify_token getenv = Raise e ->
      forall connect',
        tool_get_actor_pricing_information getenv connect' utc_now PricingInfo
          model_validate actor_id = Raise e)
  /\ (forall token,
      get_apify_token getenv = Ok token ->
      (actor_get (connect token) (PStr actor_id) = Ok None
       \/ actor_get (connect token) (PStr actor_id) = Ok (Some []) ->
       tool_get_actor_pricing_information getenv connect utc_now PricingInfo
         model_validate actor_id
       = Raise (ValueError ("Actor " ++ actor_id ++ " not found.")%string))
      /\ (forall e,
          actor_get (connect token) (PStr actor_id) = Raise e ->
          tool_get_actor_pricing_information getenv connect utc_now PricingInfo
            model_validate actor_id = Raise e)).
Proof.
  unfold tool_get_actor_pricing_information. split.
  - intros e He connect'. now rewrite He.
  - intros token Htoken. rewrite Htoken. cbn [bind]. split.
    + intros [-> | ->]; reflexivity.
    + intros e ->. reflexivity.
Qed.

Lemma pricing_tool_lookup_failures_witness :
  sample_pricing (Some []) 1000
  = Raise (ValueError "Actor apify/web-scraper not found.").
Proof.
  apply (proj1 (proj2 (pricing_tool_lookup_failures sample_getenv
                         (fun _ => sample_client (Some []) [])
                         (fun _ => 1000%Z) dict sample_model_validate
                         "apify/web-scraper")
                  "apify_api_token" eq_refl)).
  right. reflexivity.
Defined.

Section PricingScan.

Variable getenv : string -> option string.
Variable connect : string -> ApifyClient.
Variable utc_now : nat -> Z.
Variable PricingInfo : Type.
Variable model_validate : pyval -> result PricingInfo.

Variables (token actor_id : string) (actor : dict) (now : Z).

Hypothesis Htoken : get_apify_token getenv = Ok token.
Hypothesis Hactor :
  actor_get (connect token) (PStr actor_id) = Ok (Some actor).
Hypothesis Hnow : forall k, utc_now k = now.

Local Abbreviation run :=
  (tool_get_actor_pricing_information getenv connect utc_now PricingInfo
     model_validate actor_id).

Lemma nonempty_app_cons {A : Type} (l1 l2 : list A) (x : A) :
  l1 ++ x :: l2 <> [].
Proof. destruct l1; discriminate. Qed.

(** X16: the scan ends at the first entry that starts after [now]: the tool
    validates the last of the entries before it ([None] when there is
    none), and whatever follows that entry, entries that have started or
    values that are no entries at all, is not looked at. *)
Theorem pricing_stops_at_first_future (pre : list dict) (future : dict)
  (post : list pyval) :
  dict_get actor "pricingInfos"
  = Some (PList (map PDict pre ++ PDict future :: post)) ->
  Forall (starts_by now) pre ->
  starts_after now future ->
  run = model_validate (last (map PDict pre) PNone).
Proof.
  intros Hinfo Hpre (t & Ht & Hlt).
  rewrite (tool_runs_loop getenv connect utc_now PricingInfo model_validate
             token actor_id actor Htoken Hactor _ Hinfo)
    by apply nonempty_app_cons.
  rewrite (pricing_loop_prefix utc_now now pre Hnow Hpre).
  rewrite (pricing_loop_step _ _ _ _ _ _ Ht), Hnow.
  apply Z.ltb_lt in Hlt. now rewrite Hlt.
Qed.

(** X17: whatever the order of the entries, the tool never validates an
    entry from the future: either the scan raises and the tool raises the
    same, or the value it validates is [None] or an entry of the list
    that starts at [now] or before. *)
Theorem pricing_never_future (items : list pyval) :
  dict_get actor "pricingInfos" = Some (PList items) ->
  items <> [] ->
  (exists e, pricing_loop utc_now 0 PNone items = Raise e /\ run = Raise e)
  \/ exists v,
      run = model_validate v
      /\ (v = PNone
          \/ exists entry,
              v = PDict entry /\ In (PDict entry) items
              /\ starts_by now entry).
Proof.
  intros Hinfo Hne.
  rewrite (tool_runs_loop getenv connect utc_now PricingInfo model_validate
             token actor_id actor Htoken Hactor _ Hinfo Hne).
  destruct (pricing_loop utc_now 0 PNone items) as [v|e] eqn:Hrun.
  - right. exists v. split; [reflexivity|].
    exact (pricing_loop_result utc_now now Hnow items 0%nat PNone v Hrun).
  - left. now exists e.
Qed.

(** X18: an entry the scan reaches that is not an object makes the tool
    raise [AttributeError], and one whose ['startedAt'] is absent or not a
    datetime makes it raise [TypeError]; the scan reaches it when all the
    entries before it have started. *)
Theorem pricing_malformed_entry (pre : list dict) (x : pyval)
  (post : list pyval) :
  dict_get actor "pricingInfos" = Some (PList (map PDict pre ++ x :: post)) ->
  Forall (starts_by now) pre ->
  ((forall d, x <> PDict d) -> run = Raise AttributeError)
  /\ (forall d, x = PDict d -> started_at d = None -> run = Raise TypeError).
Proof.
  intros Hinfo Hpre.
  rewrite (tool_runs_loop getenv connect utc_now PricingInfo model_validate
             token actor_id actor Htoken Hactor _ Hinfo)
    by apply nonempty_app_cons.
  rewrite (pricing_loop_prefix utc_now now pre Hnow Hpre). split.
  - intros Hnot. destruct x; try reflexivity. now destruct (Hnot d).
  - intros d -> Hstart. cbn [pricing_loop]. unfold started_at in Hstart.
    unfold py_get. destruct (dict_get d "startedAt") as [[]|];
      try reflexivity. discriminate.
Qed.

End PricingScan.

Lemma pricing_stops_at_first_future_witness :
  sample_pricing_raw
    (map PDict [sample_entry "FREE" 900]
       ++ PDict (sample_entry "PAY_PER_EVENT" 2000)
       :: [PDict (sample_entry "FLAT_PRICE_PER_MONTH" 950); PStr "n/a"])
    1000
  = Ok (sample_entry "FREE" 900).
Proof.
  apply (pricing_stops_at_first_future sample_getenv
           (fun _ => sample_client
                       (Some [("id", PStr "abc");
                              ("pricingInfos",
                               PList (map PDict [sample_entry "FREE" 900]
                                        ++ PDict (sample_entry "PAY_PER_EVENT" 2000)
                                        :: [PDict (sample_entry
                                                     "FLAT_PRICE_PER_MONTH" 950);
                                            PStr "n/a"]))]) [])
           (fun _ => 1000%Z) dict sample_model_validate
           "apify_api_token" "apify/web-scraper" _ 1000%Z
           eq_refl eq_refl (fun _ => eq_refl)
           [sample_entry "FREE" 900] (sample_entry "PAY_PER_EVENT" 2000)
           [PDict (sample_entry "FLAT_PRICE_PER_MONTH" 950); PStr "n/a"]).
  - reflexivity.
  - constructor; [|constructor]. exists 900%Z. split; [reflexivity|lia].
  - exists 2000%Z. split; [reflexivity|lia].
Defined.

Lemma pricing_never_future_witness :
  (exists e,
      pricing_loop (fun _ => 1000%Z) 0 PNone
        [PDict (sample_entry "PAY_PER_EVENT" 2000);
         PDict (sample_entry "FREE" 900)] = Raise e
      /\ sample_pricing_raw [PDict (sample_entry "PAY_PER_EVENT" 2000);
                             PDict (sample_entry "FREE" 900)] 1000
         = Raise e)
  \/ exists v,
      sample_pricing_raw [PDict (sample_entry "PAY_PER_EVENT" 2000);
                          PDict (sample_entry "FREE" 900)] 1000
      = sample_model_validate v
      /\ (v = PNone
          \/ exists entry,
              v = PDict entry
              /\ In (PDict entry) [PDict (sample_entry "PAY_PER_EVENT" 2000);
                                   PDict (sample_entry "FREE" 900)]
              /\ starts_by 1000 entry).
Proof.
  apply (pricing_never_future sample_getenv
           (fun _ => sample_client
                       (Some [("id", PStr "abc");
                              ("pricingInfos",
                               PList [PDict (sample_entry "PAY_PER_EVENT" 2000);
                                      PDict (sample_entry "FREE" 900)])]) [])
           (fun _ => 1000%Z) dict sample_model_validate
           "apify_api_token" "apify/web-scraper" _ 1000%Z
           eq_refl eq_refl (fun _ => eq_refl)).
  - reflexivity.
  - discriminate.
Defined.

Lemma pricing_malformed_entry_witness :
  sample_pricing_raw
    (map PDict [sample_entry "FREE" 900]
       ++ PDict [("pricingModel", PStr "FREE");
                 ("startedAt", PStr "2025-01-01T00:00:00.000Z")]
       :: [])
    1000
  = Raise TypeError.
Proof.
  destruct (pricing_malformed_entry sample_getenv
              (fun _ => sample_client
                          (Some [("id", PStr "abc");
                                 ("pricingInfos",
                                  PList (map PDict [sample_entry "FREE" 900]
                                           ++ PDict [("pricingModel", PStr "FREE");
                                                     ("startedAt",
                                                      PStr "2025-01-01T00:00:00.000Z")]
                                           :: []))]) [])
              (fun _ => 1000%Z) dict sample_model_validate
              "apify_api_token" "apify/web-scraper" _ 1000%Z
              eq_refl eq_refl (fun _ => eq_refl)
              [sample_entry "FREE" 900]
              (PDict [("pricingModel", PStr "FREE");
                      ("startedAt", PStr "2025-01-01T00:00:00.000Z")])
              []) as [_ Htype].
  - reflexivity.
  - constructor; [|constructor]. exists 900%Z. split; [reflexivity|lia].
  - apply (Htype _ eq_refl). reflexivity.
Defined.

(** X19: a record whose ['name'] is there but is not a string ([None], a
    number, a list) makes [generate_file_tree] raise [AttributeError] as
    soon as the records before it are built; the records after it play no
    part and no tree is returned. *)
Theorem generate_file_tree_name_not_string (before after : list dict)
  (r : dict) (v : pyval) :
  dict_get r "name" = Some v ->
  (forall s, v <> PStr s) ->
  generate_file_tree (before ++ r :: after)
  = match generate_file_tree before with
    | Ok _ => Raise AttributeError
    | Raise e => Raise e
    end.
Proof.
  intros Hname Hnot. unfold generate_file_tree. rewrite add_files_app.
  destruct (add_files [] before) as [t|e]; [|reflexivity].
  cbn [bind add_files]. unfold add_file, path_parts_of. rewrite Hname.
  destruct v; try reflexivity. now destruct (Hnot s).
Qed.

Lemma generate_file_tree_name_not_string_witness :
  generate_file_tree
    ([[("name", PStr "src/main.py")]] ++ [("name", PNone)]
       :: [[("name", PStr "Dockerfile")]])
  = Raise AttributeError.
Proof.
  apply (generate_file_tree_name_not_string
           [[("name", PStr "src/main.py")]]
           [[("name", PStr "Dockerfile")]]
           [("name", PNone)] PNone eq_refl).
  discriminate.
Defined.
